(** * Sharpe-ratio notebook: a shallow embedding and its properties

    The notebook [3_Sharp_ratio/Sharp ratio] downloads five years of prices
    for four tickers, derives daily returns, annualises them and ranks the
    tickers by Sharpe ratio.  Its last cell repeats the computation inline
    with an arithmetic annualisation.

    Numbers.  Python floats are read as real numbers: rounding and overflow
    are outside this development.  The missing values (NaN) that
    [pct_change] creates, its first row and every 0/0, are modelled
    ([None]) because [dropna] acts on them; so is the place [sort_values]
    gives to a NaN ratio.  The value inf has no counterpart: statements
    about the value of a return assume that no price is zero.  Price cells
    are observations, i.e. numbers; a frame with missing prices is not an
    input of the model.

    Effects.  The market-data provider, the clock, standard output and the
    CSV file are the notebook's only contacts with the outside.  A cell is a
    computation in a small monad that threads the chronological list of
    events and may end in a raised Python exception. *)

From Stdlib Require Import String ZArith Bool Reals Lra Lia.
From Stdlib Require Import List Permutation Sorted.
Import ListNotations.

Open Scope string_scope.
Open Scope list_scope.
Open Scope R_scope.

(* ================================================================== *)
(** * Python values                                                    *)
(* ================================================================== *)

(** An instance of Python's [Exception]: its class name and [str(e)]. *)
Record Exception : Type := mkException
  { exc_class : string;
    exc_str : string }.

(** The result of evaluating a Python expression. *)
Inductive outcome (A : Type) : Type :=
| Returned (a : A)
| Raised (e : Exception).

Arguments Returned {A} a.
Arguments Raised {A} e.

Definition KeyError (key : string) : Exception :=
  mkException "KeyError" ("'" ++ key ++ "'")%string.

Definition IndexError (msg : string) : Exception :=
  mkException "IndexError" msg.

(** [datetime] values, counted in microseconds. *)
Definition datetime : Type := Z.

Definition timedelta (days : Z) : Z := (days * 86400 * 1000000)%Z.

(* ================================================================== *)
(** * pandas                                                           *)
(* ================================================================== *)

(** A table of one price field: a column per ticker, a row per date.  Every
    row carries one cell per column. *)
Record Frame (V : Type) : Type := mkFrame
  { columns : list string;
    rows : list (datetime * list V) }.

Arguments mkFrame {V} columns rows.
Arguments columns {V} f.
Arguments rows {V} f.

(** What [yf.download] hands back: columns on two levels, the price field
    ("Adj Close", "Close", ...) above the ticker. *)
Definition DataFrame : Type := list (string * Frame R).

(** A labelled vector, e.g. one number per ticker. *)
Definition Series : Type := list (string * R).

(** [df[key]] *)
Fixpoint getitem (df : DataFrame) (key : string) : outcome (Frame R) :=
  match df with
  | [] => Raised (KeyError key)
  | (k, f) :: rest => if String.eqb k key then Returned f else getitem rest key
  end.

Definition wf_frame {V : Type} (f : Frame V) : Prop :=
  Forall (fun r => length (snd r) = length (columns f)) (rows f).

(** One step of [pct_change]: the relative change of each cell with respect
    to the row above.  numpy's 0/0 is NaN, a missing value.  A nonzero price
    over a zero one is inf, which is not missing: the cell stays, and as a
    real number its value carries no meaning. *)
Definition pct_cell (prev cur : R) : option R :=
  if Req_dec_T prev 0
  then if Req_dec_T cur 0 then None else Some (cur / prev - 1)
  else Some (cur / prev - 1).

Fixpoint pct_rows (prev : list R) (rs : list (datetime * list R))
  : list (datetime * list (option R)) :=
  match rs with
  | [] => []
  | (t, cur) :: rest =>
      (t, map (fun pc => pct_cell (fst pc) (snd pc)) (combine prev cur))
        :: pct_rows cur rest
  end.

(** [f.pct_change()]: same index, same columns; the first row has nothing
    above it and is all NaN. *)
Definition pct_change (f : Frame R) : Frame (option R) :=
  mkFrame (columns f)
    match rows f with
    | [] => []
    | (t, first) :: rest => (t, map (fun _ => None) first) :: pct_rows first rest
    end.

(** The cells of a row, when none of them is NaN. *)
Fixpoint notna_row (cells : list (option R)) : option (list R) :=
  match cells with
  | [] => Some []
  | None :: _ => None
  | Some x :: rest =>
      match notna_row rest with
      | Some xs => Some (x :: xs)
      | None => None
      end
  end.

Fixpoint dropna_rows (rs : list (datetime * list (option R)))
  : list (datetime * list R) :=
  match rs with
  | [] => []
  | (t, cells) :: rest =>
      match notna_row cells with
      | Some xs => (t, xs) :: dropna_rows rest
      | None => dropna_rows rest
      end
  end.

(** [f.dropna()]: the rows that hold a NaN are removed. *)
Definition dropna (f : Frame (option R)) : Frame R :=
  mkFrame (columns f) (dropna_rows (rows f)).

(** The values of the [j]-th column, top to bottom. *)
Definition column (j : nat) (f : Frame R) : list R :=
  map (fun r => nth j (snd r) 0) (rows f).

(** [f[ticker]] on a one-level frame. *)
Fixpoint position (ticker : string) (names : list string) : option nat :=
  match names with
  | [] => None
  | n :: rest =>
      if String.eqb n ticker then Some O
      else option_map S (position ticker rest)
  end.

Definition getcolumn (f : Frame R) (ticker : string) : outcome (list R) :=
  match position ticker (columns f) with
  | Some j => Returned (column j f)
  | None => Raised (KeyError ticker)
  end.

Definition total (xs : list R) : R := fold_right Rplus 0 xs.

(** [s.mean()].  (Of no value pandas gives NaN; the model's value there
    carries no meaning.) *)
Definition mean (xs : list R) : R := total xs / INR (length xs).

(** [s.std()]: the sample standard deviation (one degree of freedom
    removed).  (Of fewer than two values pandas gives NaN; the model's
    value there carries no meaning.) *)
Definition std (xs : list R) : R :=
  sqrt (total (map (fun x => (x - mean xs) ^ 2) xs) / (INR (length xs) - 1)).

(** A column-wise reduction of a frame: one number per ticker. *)
Definition aggregate (g : list R -> R) (f : Frame R) : Series :=
  map (fun jn => (snd jn, g (column (fst jn) f)))
      (combine (seq 0 (length (columns f))) (columns f)).

(** Element-wise operations on series.  The binary ones are only used on
    series that share their index, so the cells meet by position. *)
Definition smap (g : R -> R) (s : Series) : Series :=
  map (fun kv => (fst kv, g (snd kv))) s.

Definition szip (g : R -> R -> R) (a b : Series) : Series :=
  map (fun ab => (fst (fst ab), g (snd (fst ab)) (snd (snd ab)))) (combine a b).

(* ================================================================== *)
(** * The notebook's functions                                         *)
(* ================================================================== *)

Definition trading_days : nat := 252.

Record Metrics : Type := mkMetrics
  { Annual_Return : R;
    Annual_Volatility : R;
    Excess_Return : R;
    Sharpe_Ratio : R;
    Annual_Return_Pct : R;
    Annual_Volatility_Pct : R;
    Excess_Return_Pct : R }.

(** The table [calculate_sharpe_ratio] returns: a row per ticker. *)
Definition Results : Type := list (string * Metrics).

(** [daily_returns = adj_close.pct_change().dropna()] *)
Definition daily_returns_of (adj_close : Frame R) : Frame R :=
  dropna (pct_change adj_close).

(** [pd.DataFrame({...})] of the four series, followed by the three
    percentage columns. *)
Fixpoint results_frame (annual_returns annual_volatility excess_returns
                          sharpe_ratios : Series) : Results :=
  match annual_returns, annual_volatility, excess_returns, sharpe_ratios with
  | (k, a) :: ar, (_, v) :: av, (_, e) :: er, (_, s) :: sr =>
      (k, mkMetrics a v e s (a * 100) (v * 100) (e * 100))
        :: results_frame ar av er sr
  | _, _, _, _ => []
  end.

Definition calculate_sharpe_ratio (df : DataFrame) (risk_free_rate : R)
  : outcome Results :=
  match getitem df "Adj Close" with
  | Raised e => Raised e
  | Returned adj_close =>
      let daily_returns := daily_returns_of adj_close in
      let annual_returns :=
        smap (fun m => (1 + m) ^ trading_days - 1) (aggregate mean daily_returns) in
      let annual_volatility :=
        smap (fun s => s * sqrt (INR trading_days)) (aggregate std daily_returns) in
      let excess_returns := smap (fun a => a - risk_free_rate) annual_returns in
      let sharpe_ratios := szip Rdiv excess_returns annual_volatility in
      Returned (results_frame annual_returns annual_volatility
                              excess_returns sharpe_ratios)
  end.

(** The inline loop of the last cell, for one ticker: the daily risk-free
    rate is taken off every return, the mean is scaled by 252. *)
Definition inline_sharpe_ratio (stock_returns : list R) (risk_free_rate : R) : R :=
  let daily_rfr := risk_free_rate / 252 in
  let excess_daily_return := map (fun x => x - daily_rfr) stock_returns in
  let avg_excess_return := mean excess_daily_return in
  let std_dev := std excess_daily_return in
  (avg_excess_return * 252) / (std_dev * sqrt 252).

(** What [calculate_sharpe_ratio] computes for one ticker, whose daily
    returns are [stock_returns]: the entries of [annual_returns], of
    [annual_volatility] and of [sharpe_ratios] at that ticker
    (lemma [calculate_sharpe_ratio_rows] below). *)
Definition annual_return (stock_returns : list R) : R :=
  (1 + mean stock_returns) ^ trading_days - 1.

Definition annual_volatility (stock_returns : list R) : R :=
  std stock_returns * sqrt (INR trading_days).

Definition calculated_sharpe_ratio (stock_returns : list R) (risk_free_rate : R) : R :=
  (annual_return stock_returns - risk_free_rate) / annual_volatility stock_returns.

(** ** Sorting and rounding of the results *)

Fixpoint insert_desc (row : string * Metrics) (sorted : Results) : Results :=
  match sorted with
  | [] => [row]
  | r :: rest =>
      if Rle_dec (Sharpe_Ratio (snd r)) (Sharpe_Ratio (snd row))
      then row :: r :: rest
      else r :: insert_desc row rest
  end.

(** [results.sort_values('Sharpe_Ratio', ascending=False)].  Which of two
    rows with the same ratio comes first is pandas' choice; nothing below
    depends on it. *)
Definition sort_values (results : Results) : Results :=
  fold_right insert_desc [] results.

(** Nearest integer, ties to the even one. *)
Definition rint (x : R) : Z :=
  let n := Int_part x in
  let f := frac_part x in
  if Rlt_dec f (1 / 2) then n
  else if Rlt_dec (1 / 2) f then (n + 1)%Z
  else if Z.even n then n else (n + 1)%Z.

Definition round (decimals : nat) (x : R) : R :=
  IZR (rint (x * 10 ^ decimals)) / 10 ^ decimals.

(** [results.round(4)] *)
Definition round_results (decimals : nat) (results : Results) : Results :=
  map (fun row =>
         let m := snd row in
         (fst row,
          mkMetrics (round decimals (Annual_Return m))
                    (round decimals (Annual_Volatility m))
                    (round decimals (Excess_Return m))
                    (round decimals (Sharpe_Ratio m))
                    (round decimals (Annual_Return_Pct m))
                    (round decimals (Annual_Volatility_Pct m))
                    (round decimals (Excess_Return_Pct m))))
      results.

(** [results.index[0]] and [results.index[-1]] *)
Definition index_first (results : Results) : outcome string :=
  match results with
  | [] => Raised (IndexError "index 0 is out of bounds for axis 0 with size 0")
  | row :: _ => Returned (fst row)
  end.

Definition index_last (results : Results) : outcome string :=
  match rev results with
  | [] => Raised (IndexError "index -1 is out of bounds for axis 0 with size 0")
  | row :: _ => Returned (fst row)
  end.

(** [results.loc[stock]]: the row labelled [stock].  Tickers label one row
    each; a table with repeated labels is not modelled. *)
Fixpoint loc (results : Results) (stock : string) : outcome Metrics :=
  match results with
  | [] => Raised (KeyError stock)
  | row :: rest =>
      if String.eqb (fst row) stock then Returned (snd row) else loc rest stock
  end.

(* ================================================================== *)
(** * The outside world                                                *)
(* ================================================================== *)

(** The two shapes of [yf.download] call the notebook makes. *)
Inductive request : Type :=
| History (tickers : list string) (start end_ : datetime) (auto_adjust : bool)
| Latest (ticker period interval : string) (progress : bool).

(** Pieces of a printed line: literal text, [str(...)] of a Python object,
    a float under a format specification, a table rendered by
    [to_string]. *)
Inductive fragment : Type :=
| Text (s : string)
| Str (s : string)
| Float (x : R) (spec : string)
| Table (header : list string) (body : list (string * list R)).

Inductive event : Type :=
| Download (req : request)
| Print (line : list fragment)
| ToCsv (path : string) (table : Results).

(** The clock and the provider.  [provider n req] is the provider's response
    to [req] when [n] downloads were made before it, so a repeated request
    need not be answered twice the same way. *)
Record World : Type := mkWorld
  { now : datetime;
    provider : nat -> request -> outcome DataFrame }.

Definition is_download (ev : event) : bool :=
  match ev with Download _ => true | _ => false end.

Definition is_write (ev : event) : bool :=
  match ev with ToCsv _ _ => true | _ => false end.

Definition downloads (trace : list event) : list event := filter is_download trace.
Definition writes (trace : list event) : list event := filter is_write trace.

(** A notebook computation: it extends the trace of events and returns or
    raises. *)
Definition Cell (A : Type) : Type :=
  World -> list event -> list event * outcome A.

Definition ret {A : Type} (a : A) : Cell A := fun _ tr => (tr, Returned a).

Definition raise {A : Type} (e : Exception) : Cell A := fun _ tr => (tr, Raised e).

Definition bind {A B : Type} (c : Cell A) (k : A -> Cell B) : Cell B :=
  fun w tr =>
    match c w tr with
    | (tr', Returned a) => k a w tr'
    | (tr', Raised e) => (tr', Raised e)
    end.

Notation "x <- c ;; k" := (bind c (fun x => k))
  (at level 61, c at next level, right associativity).
Notation "c ;;; k" := (bind c (fun _ => k))
  (at level 61, right associativity).

(** [try: body  except Exception as e: handler e] *)
Definition try_except {A : Type} (body : Cell A) (handler : Exception -> Cell A)
  : Cell A :=
  fun w tr =>
    match body w tr with
    | (tr', Returned a) => (tr', Returned a)
    | (tr', Raised e) => handler e w tr'
    end.

Definition lift {A : Type} (o : outcome A) : Cell A := fun _ tr => (tr, o).

Definition print (line : list fragment) : Cell unit :=
  fun _ tr => (tr ++ [Print line], Returned tt).

Definition datetime_now : Cell datetime := fun w tr => (tr, Returned (now w)).

Definition yf_download (req : request) : Cell DataFrame :=
  fun w tr => (tr ++ [Download req], provider w (length (downloads tr)) req).

Definition to_csv (table : Results) (path : string) : Cell unit :=
  fun _ tr => (tr ++ [ToCsv path table], Returned tt).

(** [for x in xs: body x] *)
Fixpoint for_each {A : Type} (xs : list A) (body : A -> Cell unit) : Cell unit :=
  match xs with
  | [] => ret tt
  | x :: rest => body x ;;; for_each rest body
  end.

Definition run {A : Type} (c : Cell A) (w : World) : list event * outcome A :=
  c w [].

(* ================================================================== *)
(** * The notebook's cells                                             *)
(* ================================================================== *)

(** [frame.iloc[-1]]: the cells of the last row. *)
Definition iloc_last (f : Frame R) : outcome (list R) :=
  match rev (rows f) with
  | [] => Raised (IndexError "single positional indexer is out-of-bounds")
  | r :: _ => Returned (snd r)
  end.

(** [float(row)]: a row of exactly one cell converts to its value. *)
Definition float (cells : list R) : outcome R :=
  match cells with
  | [x] => Returned x
  | _ => Raised (mkException "TypeError" "cannot convert the series to <class 'float'>")
  end.

Definition irx_request : request := Latest "^IRX" "1d" "1d" false.

(** [float(treasury['Close'].iloc[-1])] *)
Definition last_close (treasury : DataFrame) : outcome R :=
  match getitem treasury "Close" with
  | Raised e => Raised e
  | Returned close =>
      match iloc_last close with
      | Raised e => Raised e
      | Returned cells => float cells
      end
  end.

Definition default_rate : R := 0.02.

Definition get_risk_free_rate : Cell R :=
  try_except
    (treasury <- yf_download irx_request ;;
     close <- lift (last_close treasury) ;;
     let current_rate := close / 100 in
     ret current_rate)
    (fun e =>
       print [Text "Could not fetch current risk-free rate ("; Str (exc_str e);
              Text "), using default 2%"] ;;;
       ret default_rate).

Definition stocks : list string := ["MSFT"; "QQQ"; "INTC"; "SPY"].

Definition newline : string := String (Ascii.ascii_of_nat 10) EmptyString.

Fixpoint string_times (s : string) (n : nat) : string :=
  match n with
  | O => EmptyString
  | S n' => (s ++ string_times s n')%string
  end.

(** Step 1: download data. *)
Definition download_cell : Cell DataFrame :=
  end_ <- datetime_now ;;
  let start := (end_ - timedelta (365 * 5))%Z in
  print [Text "Downloading stock data..."] ;;;
  yf_download (History stocks start end_ false).

(** [risk_free_rate is None or pd.isna(risk_free_rate)]: the rate is a float
    and, read as a real number, never NaN. *)
Definition is_None_or_isna (risk_free_rate : R) : bool := false.

(** Step 2: current risk-free rate. *)
Definition risk_free_cell : Cell R :=
  risk_free_rate <- get_risk_free_rate ;;
  print [Text "Using risk-free rate: "; Float risk_free_rate ".4f"; Text " (";
         Float (risk_free_rate * 100) ".2f"; Text "%)"] ;;;
  if is_None_or_isna risk_free_rate then
    print [Text "Using default risk-free rate: 2.00%"] ;;;
    ret default_rate
  else ret risk_free_rate.

(** Step 3: Sharpe ratios. *)
Definition sharpe_cell (df : DataFrame) (risk_free_rate : R) : Cell Results :=
  print [Text "Calculating Sharpe ratios..."] ;;;
  lift (calculate_sharpe_ratio df risk_free_rate).

Definition interpretation (sharpe_val : R) : string :=
  if Rgt_dec sharpe_val 3 then "Excellent"
  else if Rgt_dec sharpe_val 2 then "Very Good"
  else if Rgt_dec sharpe_val 1 then "Good"
  else if Rgt_dec sharpe_val 0 then "Positive but Below Average"
  else "Poor (Negative)".

(** [results.loc[stock, field]] *)
Definition loc_field (results : Results) (stock : string) (field : Metrics -> R)
  : Cell R :=
  m <- lift (loc results stock) ;; ret (field m).

Definition banner (title : string) : Cell unit :=
  print [Text (newline ++ string_times "=" 80)] ;;;
  print [Text title] ;;;
  print [Text (string_times "=" 80)].

(** Step 4: display, best ratio first. *)
Definition display_cell (sharpe_results : Results) : Cell Results :=
  banner "SHARPE RATIO ANALYSIS RESULTS" ;;;
  let sharpe_results_sorted := sort_values sharpe_results in
  for_each (map fst sharpe_results_sorted) (fun stock =>
    print [Text newline; Str stock; Text ":"] ;;;
    a <- loc_field sharpe_results_sorted stock Annual_Return_Pct ;;
    print [Text "  Annual Return:    "; Float a "8.2f"; Text "%"] ;;;
    v <- loc_field sharpe_results_sorted stock Annual_Volatility_Pct ;;
    print [Text "  Annual Volatility: "; Float v "7.2f"; Text "%"] ;;;
    e <- loc_field sharpe_results_sorted stock Excess_Return_Pct ;;
    print [Text "  Excess Return:    "; Float e "8.2f"; Text "%"] ;;;
    s <- loc_field sharpe_results_sorted stock Sharpe_Ratio ;;
    print [Text "  Sharpe Ratio:     "; Float s "8.4f"] ;;;
    sharpe_val <- loc_field sharpe_results_sorted stock Sharpe_Ratio ;;
    print [Text "  Performance:      "; Text (interpretation sharpe_val)]) ;;;
  ret sharpe_results_sorted.

(** Step 5: summary table. *)
Definition summary_cell (sharpe_results_sorted : Results) : Cell unit :=
  banner "SUMMARY TABLE" ;;;
  let summary_df :=
    map (fun row => (fst row,
                     [round 4 (Annual_Return_Pct (snd row));
                      round 4 (Annual_Volatility_Pct (snd row));
                      round 4 (Sharpe_Ratio (snd row))]))
        sharpe_results_sorted in
  print [Table ["Annual Return (%)"; "Volatility (%)"; "Sharpe Ratio"] summary_df].

Definition csv_path : string := "sharpe_ratio_analysis.csv".

(** Step 6: best and worst performers, CSV export. *)
Definition export_cell (sharpe_results_sorted : Results) : Cell unit :=
  best_stock <- lift (index_first sharpe_results_sorted) ;;
  worst_stock <- lift (index_last sharpe_results_sorted) ;;
  b <- loc_field sharpe_results_sorted best_stock Sharpe_Ratio ;;
  print [Text newline; Text " Best Risk-Adjusted Performance: "; Str best_stock;
         Text " (Sharpe: "; Float b ".4f"; Text ")"] ;;;
  w <- loc_field sharpe_results_sorted worst_stock Sharpe_Ratio ;;
  print [Text "Worst Risk-Adjusted Performance: "; Str worst_stock;
         Text " (Sharpe: "; Float w ".4f"; Text ")"] ;;;
  to_csv (round_results 4 sharpe_results_sorted) csv_path ;;;
  print [Text newline; Text " Results saved to 'sharpe_ratio_analysis.csv'"].

(** The analysis, cell after cell. *)
Definition analysis : Cell unit :=
  df <- download_cell ;;
  risk_free_rate <- risk_free_cell ;;
  sharpe_results <- sharpe_cell df risk_free_rate ;;
  sharpe_results_sorted <- display_cell sharpe_results ;;
  summary_cell sharpe_results_sorted ;;;
  export_cell sharpe_results_sorted.

(** The loop of the last cell: a ratio per ticker, in a dict. *)
Fixpoint inline_loop (tickers : list string) (daily_returns : Frame R)
                     (risk_free_rate : R) : outcome (list (string * R)) :=
  match tickers with
  | [] => Returned []
  | stock :: rest =>
      match getcolumn daily_returns stock with
      | Raised e => Raised e
      | Returned stock_returns =>
          match inline_loop rest daily_returns risk_free_rate with
          | Raised e => Raised e
          | Returned sharpe_ratios =>
              Returned ((stock, inline_sharpe_ratio stock_returns risk_free_rate)
                          :: sharpe_ratios)
          end
      end
  end.

Fixpoint insert_desc_value (row : string * R) (sorted : list (string * R))
  : list (string * R) :=
  match sorted with
  | [] => [row]
  | r :: rest =>
      if Rle_dec (snd r) (snd row) then row :: r :: rest
      else r :: insert_desc_value row rest
  end.

(** The last cell: the same analysis inline, at a fixed 3% rate. *)
Definition inline_analysis : Cell unit :=
  end_ <- datetime_now ;;
  let start := (end_ - timedelta (365 * 5))%Z in
  prices <- yf_download (History stocks start end_ false) ;;
  df <- lift (getitem prices "Adj Close") ;;
  let daily_returns := dropna (pct_change df) in
  let risk_free_rate := 0.03 in
  sharpe_ratios <- lift (inline_loop stocks daily_returns risk_free_rate) ;;
  let sharpe_df := fold_right insert_desc_value [] sharpe_ratios in
  print [Table ["Sharpe Ratio"] (map (fun kv => (fst kv, [snd kv])) sharpe_df)].

(** ** Derived notions used in the statements *)

(** The row of a ticker whose daily returns are [stock_returns]. *)
Definition metrics_of (stock_returns : list R) (risk_free_rate : R) : Metrics :=
  let a := annual_return stock_returns in
  let v := annual_volatility stock_returns in
  mkMetrics a v (a - risk_free_rate) ((a - risk_free_rate) / v)
            (a * 100) (v * 100) ((a - risk_free_rate) * 100).

(** The enumerated tickers of a frame. *)
Definition tickers_of (f : Frame R) : list (nat * string) :=
  combine (seq 0 (length (columns f))) (columns f).


(** The relative changes of the rows [rs] that follow a row [prev], as
    plain numbers. *)
Fixpoint change_rows (prev : list R) (rs : list (datetime * list R))
  : list (datetime * list R) :=
  match rs with
  | [] => []
  | (t, cur) :: rest =>
      (t, map (fun pc => snd pc / fst pc - 1) (combine prev cur))
        :: change_rows cur rest
  end.

(** The dates of a frame, top to bottom. *)
Definition index {V : Type} (f : Frame V) : list datetime := map fst (rows f).

(** A series takes at least two different values. *)
Definition not_all_equal (xs : list R) : Prop :=
  exists x y, In x xs /\ In y xs /\ x <> y.

(** The divisor of the inline loop's ratio. *)
Definition inline_divisor (stock_returns : list R) (risk_free_rate : R) : R :=
  std (map (fun x => x - risk_free_rate / 252) stock_returns) * sqrt 252.

(** ** Sample inputs *)

(** One ticker rising by 10% and then by 20%. *)
Definition rising_prices : Frame R :=
  mkFrame ["MSFT"] [(0%Z, [100]); (1%Z, [110]); (2%Z, [132])].

Definition rising_df : DataFrame := [("Adj Close", rising_prices)].

Definition rising_returns : list R := [110 / 100 - 1; 132 / 110 - 1].

(** [a] ranks no lower than [b]. *)
Definition ranks_above (a b : string * Metrics) : Prop :=
  Sharpe_Ratio (snd b) <= Sharpe_Ratio (snd a).

(** ** Reading a run *)

Definition is_print (ev : event) : bool :=
  match ev with Print _ => true | _ => false end.

(** The request of Step 1 in a world. *)
Definition stock_request (w : World) : request :=
  History ["MSFT"; "QQQ"; "INTC"; "SPY"]
          (now w - timedelta (5 * 365))%Z (now w) false.

(** The data fetch of [get_risk_free_rate], made after [n] downloads: the
    download of ^IRX followed by the extraction of its last Close. *)
Definition irx_fetch (w : World) (n : nat) : outcome R :=
  match provider w n irx_request with
  | Raised e => Raised e
  | Returned treasury => last_close treasury
  end.

Definition fetch_failure_message (e : Exception) : event :=
  Print [Text "Could not fetch current risk-free rate ("; Str (exc_str e);
         Text "), using default 2%"].

Definition rate_message (risk_free_rate : R) : event :=
  Print [Text "Using risk-free rate: "; Float risk_free_rate ".4f"; Text " (";
         Float (risk_free_rate * 100) ".2f"; Text "%)"].

(** The rate Step 2 settles on, and what it prints. *)
Definition rate_of (w : World) (n : nat) : R :=
  match irx_fetch w n with
  | Raised _ => 0.02
  | Returned close => close / 100
  end.

Definition rate_prints (w : World) (n : nat) : list event :=
  match irx_fetch w n with
  | Raised e => [fetch_failure_message e; rate_message 0.02]
  | Returned close => [rate_message (close / 100)]
  end.

Definition downloading_message : event := Print [Text "Downloading stock data..."].

Definition calculating_message : event :=
  Print [Text "Calculating Sharpe ratios..."].

Definition saved_message : event :=
  Print [Text newline; Text " Results saved to 'sharpe_ratio_analysis.csv'"].

(** A computation that only appends events satisfying [P]. *)
Definition emits {A : Type} (P : event -> Prop) (c : Cell A) : Prop :=
  forall w tr, exists evs, fst (c w tr) = tr ++ evs /\ Forall P evs.

Definition printed (ev : event) : Prop := is_print ev = true.

Definition is_history (ev : event) : bool :=
  match ev with Download (History _ _ _ _) => true | _ => false end.

(** The requests for price history made during a run. *)
Definition price_requests (trace : list event) : list event := filter is_history trace.

(** ** Sample worlds *)

Definition connection_error : Exception :=
  mkException "ConnectionError" "Max retries exceeded".

(** A provider every call of which raises. *)
Definition offline_world : World :=
  mkWorld 1762041600000000%Z (fun _ _ => Raised connection_error).

(** A last ^IRX close of 4.2 percent. *)
Definition treasury_df : DataFrame :=
  [("Close", mkFrame ["^IRX"] [(0%Z, [4.2])])].

(** A provider that serves the rising ticker and the treasury rate. *)
Definition market_world : World :=
  mkWorld 1762041600000000%Z
          (fun _ req =>
             match req with
             | History _ _ _ _ => Returned rising_df
             | Latest _ _ _ _ => Returned treasury_df
             end).

(** Prices arrive, the treasury download fails. *)
Definition no_treasury_world : World :=
  mkWorld 1762041600000000%Z
          (fun _ req =>
             match req with
             | History _ _ _ _ => Returned rising_df
             | Latest _ _ _ _ => Raised connection_error
             end).

(** What the provider returns when it has no data: a frame without rows. *)
Definition empty_treasury_df : DataFrame := [("Close", mkFrame ["^IRX"] [])].

Definition empty_treasury_world : World :=
  mkWorld 1762041600000000%Z
          (fun _ req =>
             match req with
             | History _ _ _ _ => Returned rising_df
             | Latest _ _ _ _ => Returned empty_treasury_df
             end).




(** ** Further notions used in the statements *)

(** Every price of a table multiplied by [c], e.g. quoted in another
    currency. *)
Definition scale_frame (c : R) (f : Frame R) : Frame R :=
  mkFrame (columns f) (map (fun r => (fst r, map (Rmult c) (snd r))) (rows f)).

Definition scale_prices (c : R) (df : DataFrame) : DataFrame :=
  map (fun kf => (fst kf, scale_frame c (snd kf))) df.

(** The relative changes along one series of prices. *)
Fixpoint returns_from (prev : R) (prices : list R) : list R :=
  match prices with
  | [] => []
  | p :: rest => (p / prev - 1) :: returns_from p rest
  end.

Definition series_returns (prices : list R) : list R :=
  match prices with
  | [] => []
  | p :: rest => returns_from p rest
  end.

(** The growth factor of reinvesting through the returns [rs]. *)
Definition compound (rs : list R) : R :=
  fold_right (fun r acc => (1 + r) * acc) 1 rs.

(** Two rows with the same label whose cells differ by at most [eps]. *)
Definition rows_within (eps : R) (a b : string * Metrics) : Prop :=
  fst a = fst b
  /\ Rabs (Annual_Return (snd a) - Annual_Return (snd b)) <= eps
  /\ Rabs (Annual_Volatility (snd a) - Annual_Volatility (snd b)) <= eps
  /\ Rabs (Excess_Return (snd a) - Excess_Return (snd b)) <= eps
  /\ Rabs (Sharpe_Ratio (snd a) - Sharpe_Ratio (snd b)) <= eps
  /\ Rabs (Annual_Return_Pct (snd a) - Annual_Return_Pct (snd b)) <= eps
  /\ Rabs (Annual_Volatility_Pct (snd a) - Annual_Volatility_Pct (snd b)) <= eps
  /\ Rabs (Excess_Return_Pct (snd a) - Excess_Return_Pct (snd b)) <= eps.

(** [a] ranks no lower than [b] in the table of the last cell. *)
Definition value_above (a b : string * R) : Prop := snd b <= snd a.

(** Prices of the four tickers on three days. *)
Definition four_prices : Frame R :=
  mkFrame ["INTC"; "MSFT"; "QQQ"; "SPY"]
          [(0%Z, [20; 400; 500; 600]);
           (1%Z, [21; 404; 510; 603]);
           (2%Z, [20; 412; 505; 609])].

Definition four_df : DataFrame := [("Adj Close", four_prices); ("Close", four_prices)].

Definition four_world : World :=
  mkWorld 1762041600000000%Z
          (fun _ req =>
             match req with
             | History _ _ _ _ => Returned four_df
             | Latest _ _ _ _ => Returned treasury_df
             end).

(** ** Notions used in the amended statements *)

(** No price of the table is zero; all are positive. *)
Definition nonzero_frame (f : Frame R) : Prop :=
  Forall (fun r => Forall (fun p => p <> 0) (snd r)) (rows f).

Definition positive_frame (f : Frame R) : Prop :=
  Forall (fun r => Forall (fun p => 0 < p) (snd r)) (rows f).

(** One ticker quoted at 0, 0 and 5. *)
Definition zero_prices : Frame R :=
  mkFrame ["MSFT"] [(0%Z, [0]); (1%Z, [0]); (2%Z, [5])].



(** ** Ranking in the presence of NaN

    The Sharpe_Ratio column as pandas holds it, a number or NaN ([None]),
    and [sort_values(ascending=False)] on it: numbers by descending value,
    NaN rows after them ([na_position='last']). *)
Definition goes_before (row r : string * option R) : bool :=
  match snd row, snd r with
  | Some x, Some y => if Rle_dec y x then true else false
  | Some _, None => true
  | None, Some _ => false
  | None, None => true
  end.

Fixpoint insert_desc_na (row : string * option R) (sorted : list (string * option R))
  : list (string * option R) :=
  match sorted with
  | [] => [row]
  | r :: rest =>
      if goes_before row r then row :: r :: rest
      else r :: insert_desc_na row rest
  end.

Definition sort_values_na (ratios : list (string * option R))
  : list (string * option R) :=
  fold_right insert_desc_na [] ratios.

(** The comparison [a <= b] of two floats: false as soon as one is NaN. *)
Definition float_le (a b : option R) : bool :=
  match a, b with
  | Some x, Some y => if Rle_dec x y then true else false
  | _, _ => false
  end.

(** The Sharpe_Ratio column of a table of numbers. *)
Definition ratio_column (results : Results) : list (string * option R) :=
  map (fun row => (fst row, Some (Sharpe_Ratio (snd row)))) results.

(** A ratio column in which INTC has no number. *)
Definition nan_ratios : list (string * option R) :=
  [("INTC", None); ("MSFT", Some 0.8001); ("SPY", Some 0.7608)].

(** The table the notebook recorded, in the order of the ticker columns. *)
Definition notebook_results : Results :=
  [("INTC", mkMetrics (-0.101199) 0.432893 (-0.1432) (-0.3309)
                      (-10.1199) 43.2893 (-14.32));
   ("MSFT", mkMetrics 0.259443 0.271729 0.2174 0.8001 25.9443 27.1729 21.74);
   ("QQQ", mkMetrics 0.215878 0.236707 0.1738 0.7344 21.5878 23.6707 17.38);
   ("SPY", mkMetrics 0.178297 0.179115 0.1363 0.7608 17.8297 17.9115 13.63)].
(* ================================================================== *)
(** * The results table, row by row                                    *)
(* ================================================================== *)

Lemma results_frame_map (X : Type) (key : X -> string) (a v e s : X -> R)
      (l : list X) :
  results_frame (map (fun x => (key x, a x)) l) (map (fun x => (key x, v x)) l)
                (map (fun x => (key x, e x)) l) (map (fun x => (key x, s x)) l)
  = map (fun x => (key x, mkMetrics (a x) (v x) (e x) (s x)
                                    (a x * 100) (v x * 100) (e x * 100))) l.
Proof.
  induction l as [|x l IH]; simpl; [reflexivity|].
  now rewrite IH.
Qed.

Lemma smap_map (X : Type) (key : X -> string) (val : X -> R) (g : R -> R)
      (l : list X) :
  smap g (map (fun x => (key x, val x)) l) = map (fun x => (key x, g (val x))) l.
Proof.
  unfold smap. rewrite map_map. reflexivity.
Qed.

Lemma szip_map (X : Type) (key : X -> string) (a b : X -> R) (g : R -> R -> R)
      (l : list X) :
  szip g (map (fun x => (key x, a x)) l) (map (fun x => (key x, b x)) l)
  = map (fun x => (key x, g (a x) (b x))) l.
Proof.
  unfold szip. induction l as [|x l IH]; simpl; [reflexivity|].
  now rewrite IH.
Qed.

(** The vectorised body of [calculate_sharpe_ratio] computes, for the
    ticker of every column, the row [metrics_of] of that column's daily
    returns. *)
Lemma calculate_sharpe_ratio_rows (df : DataFrame) (r : R) (adj_close : Frame R) :
  getitem df "Adj Close" = Returned adj_close ->
  calculate_sharpe_ratio df r
  = Returned (map (fun jn => (snd jn,
                              metrics_of (column (fst jn) (daily_returns_of adj_close)) r))
                  (tickers_of (daily_returns_of adj_close))).
Proof.
  intros Hget. unfold calculate_sharpe_ratio. rewrite Hget.
  unfold aggregate.
  fold (tickers_of (daily_returns_of adj_close)).
  set (dr := daily_returns_of adj_close).
  rewrite (smap_map _ (fun jn => snd jn) (fun jn => mean (column (fst jn) dr))).
  rewrite (smap_map _ (fun jn => snd jn) (fun jn => std (column (fst jn) dr))).
  rewrite (smap_map _ (fun jn => snd jn)
             (fun jn => (1 + mean (column (fst jn) dr)) ^ trading_days - 1)).
  rewrite (szip_map _ (fun jn => snd jn)
             (fun jn => (1 + mean (column (fst jn) dr)) ^ trading_days - 1 - r)
             (fun jn => std (column (fst jn) dr) * sqrt (INR trading_days))).
  rewrite (results_frame_map _ (fun jn => snd jn)).
  reflexivity.
Qed.

Lemma calculate_sharpe_ratio_raises (df : DataFrame) (r : R) (e : Exception) :
  calculate_sharpe_ratio df r = Raised e <-> getitem df "Adj Close" = Raised e.
Proof.
  unfold calculate_sharpe_ratio.
  destruct (getitem df "Adj Close"); split; intros H; try discriminate;
    injection H as ->; reflexivity.
Qed.

(** C2.  Whenever [calculate_sharpe_ratio] returns a table, the Sharpe_Ratio
    cell of every ticker is the excess of the Annual_Return cell over the
    risk-free rate, divided by the Annual_Volatility cell of the same row. *)
Theorem sharpe_ratio_column_spec (df : DataFrame) (risk_free_rate : R)
        (results : Results) :
  calculate_sharpe_ratio df risk_free_rate = Returned results ->
  forall (stock : string) (m : Metrics),
    In (stock, m) results ->
    Sharpe_Ratio m = (Annual_Return m - risk_free_rate) / Annual_Volatility m.
Proof.
  intros Hcalc stock m Hin.
  destruct (getitem df "Adj Close") as [adj_close|e] eqn:Hget.
  - rewrite (calculate_sharpe_ratio_rows df risk_free_rate adj_close Hget) in Hcalc.
    injection Hcalc as <-.
    apply in_map_iff in Hin. destruct Hin as [jn [Heq _]].
    injection Heq as _ <-. reflexivity.
  - apply calculate_sharpe_ratio_raises with (r := risk_free_rate) in Hget.
    rewrite Hget in Hcalc. discriminate.
Qed.

(* ================================================================== *)
(** * Daily returns                                                    *)
(* ================================================================== *)

Lemma pct_cell_nonzero (prev cur : R) :
  prev <> 0 -> pct_cell prev cur = Some (cur / prev - 1).
Proof.
  intros Hprev. unfold pct_cell.
  destruct (Req_dec_T prev 0) as [Hz|_]; [contradiction|reflexivity].
Qed.

Lemma pct_cell_zero_zero : pct_cell 0 0 = None.
Proof.
  unfold pct_cell. destruct (Req_dec_T 0 0) as [_|Hne]; [reflexivity|].
  exfalso. apply Hne. reflexivity.
Qed.

Lemma pct_cell_over_zero (cur : R) :
  cur <> 0 -> pct_cell 0 cur = Some (cur / 0 - 1).
Proof.
  intros Hcur. unfold pct_cell.
  destruct (Req_dec_T 0 0) as [_|_]; [|reflexivity].
  destruct (Req_dec_T cur 0) as [Hz|_]; [contradiction|reflexivity].
Qed.

Lemma notna_row_pct (prev cur : list R) :
  Forall (fun p => p <> 0) prev ->
  notna_row (map (fun pc => pct_cell (fst pc) (snd pc)) (combine prev cur))
  = Some (map (fun pc => snd pc / fst pc - 1) (combine prev cur)).
Proof.
  intros Hprev. revert cur.
  induction Hprev as [|p prev Hp _ IH]; intros cur; [reflexivity|].
  destruct cur as [|c cur]; [reflexivity|].
  cbn [combine map notna_row fst snd].
  rewrite (pct_cell_nonzero p c Hp), IH. reflexivity.
Qed.

Lemma notna_row_all_nan (X : Type) (x : X) (l : list X) :
  notna_row (map (fun _ => None) (x :: l)) = None.
Proof. reflexivity. Qed.

Lemma dropna_pct_rows (prev : list R) (rs : list (datetime * list R)) :
  Forall (fun p => p <> 0) prev ->
  Forall (fun r => Forall (fun p => p <> 0) (snd r)) rs ->
  dropna_rows (pct_rows prev rs) = change_rows prev rs.
Proof.
  intros Hprev Hrs. revert prev Hprev.
  induction Hrs as [|[t cur] rs Hcur _ IH]; intros prev Hprev.
  - reflexivity.
  - cbn [pct_rows dropna_rows change_rows].
    rewrite (notna_row_pct prev cur Hprev), (IH cur Hcur). reflexivity.
Qed.

(** With at least one column and no zero price, [dropna] removes the first
    row of [pct_change] and no other. *)
Lemma daily_returns_rows (f : Frame R) (t : datetime) (first : list R)
      (rest : list (datetime * list R)) :
  nonzero_frame f ->
  rows f = (t, first) :: rest ->
  first <> [] ->
  rows (daily_returns_of f) = change_rows first rest.
Proof.
  intros Hnz Hrows Hne. unfold nonzero_frame in Hnz. rewrite Hrows in Hnz.
  inversion Hnz as [|r l Hfirst Hrest]; subst. simpl in Hfirst.
  unfold daily_returns_of, dropna, pct_change. cbn [rows columns].
  rewrite Hrows. destruct first as [|x first]; [contradiction|].
  cbn [map dropna_rows notna_row]. apply dropna_pct_rows; assumption.
Qed.

(** A table given by its columns and rows. *)
Lemma daily_returns_frame (f : Frame R) :
  daily_returns_of f = mkFrame (columns f) (rows (daily_returns_of f)).
Proof. reflexivity. Qed.

Lemma change_rows_index (prev : list R) (rs : list (datetime * list R)) :
  map fst (change_rows prev rs) = map fst rs.
Proof.
  revert prev. induction rs as [|[t cur] rs IH]; intros prev; simpl.
  - reflexivity.
  - now rewrite IH.
Qed.

Lemma nth_change (prev cur : list R) (j : nat) :
  (j < length prev)%nat -> (j < length cur)%nat ->
  nth j (map (fun pc => snd pc / fst pc - 1) (combine prev cur)) 0
  = nth j cur 0 / nth j prev 0 - 1.
Proof.
  revert cur j. induction prev as [|p prev IH]; intros cur j Hp Hc.
  - simpl in Hp. lia.
  - destruct cur as [|c cur]; [simpl in Hc; lia|].
    destruct j as [|j]; simpl; [reflexivity|].
    apply IH; simpl in *; lia.
Qed.

Lemma change_rows_cell (t0 : datetime) (prev : list R)
      (rs : list (datetime * list R)) (j i : nat) :
  (j < length prev)%nat ->
  Forall (fun r => length (snd r) = length prev) rs ->
  (i < length rs)%nat ->
  nth i (map (fun r => nth j (snd r) 0) (change_rows prev rs)) 0
  = nth (S i) (map (fun r => nth j (snd r) 0) ((t0, prev) :: rs)) 0
    / nth i (map (fun r => nth j (snd r) 0) ((t0, prev) :: rs)) 0 - 1.
Proof.
  revert t0 prev i. induction rs as [|[t cur] rs IH]; intros t0 prev i Hj Hwf Hi.
  - simpl in Hi. lia.
  - inversion Hwf as [|r l Hcur Hrest]; subst. simpl in Hcur.
    destruct i as [|i].
    + simpl. apply nth_change; lia.
    + change (nth (S i) (map (fun r => nth j (snd r) 0)
                             (change_rows prev ((t, cur) :: rs))) 0)
        with (nth i (map (fun r => nth j (snd r) 0) (change_rows cur rs)) 0).
      rewrite (IH t cur i).
      * reflexivity.
      * lia.
      * eapply Forall_impl; [|exact Hrest]. simpl. intros r Hr. lia.
      * simpl in Hi. lia.
Qed.

Lemma zero_prices_returns :
  exists x, rows (daily_returns_of zero_prices) = [(2%Z, [x])].
Proof.
  unfold daily_returns_of, dropna, pct_change, zero_prices.
  cbn [rows columns map pct_rows combine fst snd dropna_rows notna_row].
  rewrite pct_cell_zero_zero.
  assert (H5 : 5 <> 0) by lra. rewrite (pct_cell_over_zero 5 H5).
  eexists. reflexivity.
Qed.

(** C3, as stated, fails.  For one ticker quoted at 0, 0 and 5 on the dates
    0, 1 and 2, the change of the second date is 0/0, a NaN, and [dropna]
    removes it with the first: the returns have one row, for the date 2,
    and not the two rows of a series "one row fewer". *)
Lemma zero_prices_lose_two_rows :
  wf_frame zero_prices
  /\ columns zero_prices <> []
  /\ (2 <= length (rows zero_prices))%nat
  /\ index (daily_returns_of zero_prices) = [2%Z]
  /\ S (length (rows (daily_returns_of zero_prices))) <> length (rows zero_prices).
Proof.
  split; [repeat constructor|]. split; [discriminate|]. split; [simpl; lia|].
  destruct zero_prices_returns as [x Hrows].
  unfold index. rewrite Hrows. split; [reflexivity|].
  simpl. lia.
Qed.

(** C3, amended.  For a frame of prices with at least one ticker, at least
    two rows and no zero price, the daily returns [pct_change().dropna()]
    have exactly one row fewer than the prices, their dates are the dates
    of the prices without the first (so the first date, when dates are not
    repeated, has no entry), and each return is price(t)/price(t-1) - 1. *)
Theorem daily_returns_spec (f : Frame R) :
  wf_frame f ->
  nonzero_frame f ->
  columns f <> [] ->
  (2 <= length (rows f))%nat ->
  S (length (rows (daily_returns_of f))) = length (rows f)
  /\ index (daily_returns_of f) = tl (index f)
  /\ (NoDup (index f) ->
      forall t0, hd_error (index f) = Some t0 -> ~ In t0 (index (daily_returns_of f)))
  /\ forall j i : nat,
      (j < length (columns f))%nat ->
      (i < length (rows (daily_returns_of f)))%nat ->
      nth i (column j (daily_returns_of f)) 0
      = nth (S i) (column j f) 0 / nth i (column j f) 0 - 1.
Proof.
  intros Hwf Hnz Hcols Hlen.
  destruct (rows f) as [|[t first] rest] eqn:Hrows; [simpl in Hlen; lia|].
  assert (Hfirst : length first = length (columns f)).
  { unfold wf_frame in Hwf. rewrite Hrows in Hwf.
    inversion Hwf as [|r l H1 H2]; subst. exact H1. }
  assert (Hne : first <> []).
  { intros ->. simpl in Hfirst. destruct (columns f); [contradiction|discriminate]. }
  pose proof (daily_returns_rows f t first rest Hnz Hrows Hne) as Hdr.
  assert (Hidx : index (daily_returns_of f) = tl (index f)).
  { unfold index. rewrite Hdr, Hrows. simpl. apply change_rows_index. }
  repeat split.
  - rewrite Hdr. f_equal.
    rewrite <- (length_map fst), change_rows_index, length_map. reflexivity.
  - exact Hidx.
  - intros Hnodup t0 Hhd. rewrite Hidx.
    unfold index in *. rewrite Hrows in *. simpl in *.
    injection Hhd as <-. inversion Hnodup; assumption.
  - intros j i Hj Hi. unfold column. rewrite Hdr, Hrows.
    apply change_rows_cell.
    + lia.
    + unfold wf_frame in Hwf. rewrite Hrows in Hwf.
      inversion Hwf as [|r l H1 H2]; subst.
      eapply Forall_impl; [|exact H2]. simpl. intros r Hr. lia.
    + rewrite Hdr in Hi.
      rewrite <- (length_map fst), change_rows_index, length_map in Hi. exact Hi.
Qed.

(* ================================================================== *)
(** * Mean and standard deviation                                      *)
(* ================================================================== *)

Lemma total_shift (c : R) (xs : list R) :
  total (map (fun x => x - c) xs) = total xs - INR (length xs) * c.
Proof.
  induction xs as [|x xs IH].
  - simpl. lra.
  - change (total (map (fun x => x - c) (x :: xs)))
      with ((x - c) + total (map (fun x => x - c) xs)).
    change (total (x :: xs)) with (x + total xs).
    change (length (x :: xs)) with (S (length xs)).
    rewrite IH, S_INR. lra.
Qed.

Lemma INR_length_pos (X : Type) (xs : list X) : xs <> [] -> 0 < INR (length xs).
Proof.
  intros Hne. destruct xs as [|x xs]; [contradiction|].
  apply lt_0_INR. simpl. lia.
Qed.

(** Taking a constant off every value takes it off the mean. *)
Lemma mean_shift (c : R) (xs : list R) :
  xs <> [] -> mean (map (fun x => x - c) xs) = mean xs - c.
Proof.
  intros Hne. unfold mean. rewrite total_shift, length_map.
  pose proof (INR_length_pos _ xs Hne) as Hpos.
  field. lra.
Qed.

(** ... and leaves the standard deviation as it was. *)
Lemma std_shift (c : R) (xs : list R) :
  std (map (fun x => x - c) xs) = std xs.
Proof.
  destruct xs as [|x0 xs0] eqn:Hxs; [reflexivity|].
  rewrite <- Hxs. assert (Hne : xs <> []) by (rewrite Hxs; discriminate).
  unfold std. rewrite (mean_shift c xs Hne), length_map, map_map.
  f_equal. f_equal. f_equal.
  apply map_ext. intros x. f_equal. lra.
Qed.

Lemma total_squares_nonneg (m : R) (xs : list R) :
  0 <= total (map (fun x => (x - m) ^ 2) xs).
Proof.
  induction xs as [|x xs IH].
  - simpl. lra.
  - change (0 <= (x - m) ^ 2 + total (map (fun x => (x - m) ^ 2) xs)).
    pose proof (pow2_ge_0 (x - m)). lra.
Qed.

Lemma total_squares_pos (m x : R) (xs : list R) :
  In x xs -> x <> m -> 0 < total (map (fun x => (x - m) ^ 2) xs).
Proof.
  intros Hin Hneq. induction xs as [|y xs IH]; [contradiction|].
  change (0 < (y - m) ^ 2 + total (map (fun x => (x - m) ^ 2) xs)).
  pose proof (pow2_ge_0 (y - m)) as Hy.
  pose proof (total_squares_nonneg m xs) as Hxs.
  destruct Hin as [->|Hin].
  - assert (0 < (x - m) ^ 2) by nra. lra.
  - specialize (IH Hin). lra.
Qed.

Lemma total_squares_zero (m : R) (xs : list R) :
  (forall x, In x xs -> x = m) -> total (map (fun x => (x - m) ^ 2) xs) = 0.
Proof.
  intros Hall. induction xs as [|y xs IH]; [reflexivity|].
  change ((y - m) ^ 2 + total (map (fun x => (x - m) ^ 2) xs) = 0).
  rewrite IH by (intros x Hx; apply Hall; now right).
  rewrite (Hall y) by now left. lra.
Qed.

Lemma not_all_equal_length (xs : list R) :
  not_all_equal xs -> (2 <= length xs)%nat.
Proof.
  intros [x [y [Hx [Hy Hneq]]]].
  destruct xs as [|a [|b xs]].
  - destruct Hx.
  - destruct Hx as [<-|[]], Hy as [<-|[]]. contradiction.
  - simpl. lia.
Qed.

(** A series that takes two different values has a positive standard
    deviation. *)
Lemma std_pos (xs : list R) : not_all_equal xs -> 0 < std xs.
Proof.
  intros Hne. pose proof (not_all_equal_length xs Hne) as Hlen.
  destruct Hne as [x [y [Hx [Hy Hneq]]]].
  unfold std. apply sqrt_lt_R0. apply Rdiv_lt_0_compat.
  - destruct (Req_dec_T x (mean xs)) as [Heq|Hdiff].
    + apply (total_squares_pos (mean xs) y xs Hy). congruence.
    + apply (total_squares_pos (mean xs) x xs Hx Hdiff).
  - apply le_INR in Hlen. simpl in Hlen. lra.
Qed.

Lemma total_constant (c : R) (xs : list R) :
  (forall x, In x xs -> x = c) -> total xs = INR (length xs) * c.
Proof.
  intros Hall. induction xs as [|y xs IH].
  - simpl. lra.
  - change (y + total xs = INR (S (length xs)) * c).
    rewrite IH by (intros x Hx; apply Hall; now right).
    rewrite (Hall y) by now left. rewrite S_INR. lra.
Qed.

(** A series of equal values has standard deviation zero. *)
Lemma std_constant (c : R) (xs : list R) :
  (forall x, In x xs -> x = c) -> std xs = 0.
Proof.
  intros Hall. unfold std.
  destruct xs as [|x0 xs0] eqn:Hxs.
  - simpl. unfold Rdiv. rewrite Rmult_0_l. apply sqrt_0.
  - rewrite <- Hxs in *. assert (Hne : xs <> []) by (rewrite Hxs; discriminate).
    assert (Hmean : mean xs = c).
    { unfold mean. rewrite (total_constant c xs Hall).
      pose proof (INR_length_pos _ xs Hne). field. lra. }
    rewrite Hmean, (total_squares_zero c xs Hall).
    unfold Rdiv. rewrite Rmult_0_l. apply sqrt_0.
Qed.

Lemma sqrt_trading_days_pos : 0 < sqrt (INR trading_days).
Proof.
  apply sqrt_lt_R0. apply lt_0_INR. unfold trading_days. lia.
Qed.

Lemma INR_trading_days : INR trading_days = 252.
Proof.
  unfold trading_days. rewrite INR_IZR_INZ. reflexivity.
Qed.

Lemma annual_volatility_pos (xs : list R) :
  not_all_equal xs -> 0 < annual_volatility xs.
Proof.
  intros Hne. unfold annual_volatility.
  apply Rmult_lt_0_compat; [apply std_pos; exact Hne | apply sqrt_trading_days_pos].
Qed.

(** The two cells divide by the same number. *)
Lemma inline_divisor_eq (xs : list R) (r : R) :
  inline_divisor xs r = annual_volatility xs.
Proof.
  unfold inline_divisor, annual_volatility.
  rewrite std_shift, INR_trading_days. reflexivity.
Qed.

(* ================================================================== *)
(** * Compounding against scaling                                      *)
(* ================================================================== *)

Lemma bernoulli (m : R) (n : nat) :
  -1 <= m -> 1 + INR n * m <= (1 + m) ^ n.
Proof.
  intros Hm. induction n as [|n IH].
  - simpl. lra.
  - rewrite S_INR. change ((1 + m) ^ S n) with ((1 + m) * (1 + m) ^ n).
    pose proof (pos_INR n) as Hn. nra.
Qed.

Lemma bernoulli_strict (m : R) (n : nat) :
  -1 <= m -> m <> 0 -> (2 <= n)%nat -> 1 + INR n * m < (1 + m) ^ n.
Proof.
  intros Hm Hne Hn.
  destruct n as [|n]; [lia|].
  assert (Hn1 : (1 <= n)%nat) by lia.
  pose proof (bernoulli m n Hm) as Hb.
  rewrite S_INR. change ((1 + m) ^ S n) with ((1 + m) * (1 + m) ^ n).
  apply le_INR in Hn1. simpl in Hn1.
  assert (Hsq : 0 < m * m) by nra.
  assert (Hprod : 0 < INR n * (m * m)) by (apply Rmult_lt_0_compat; lra).
  nra.
Qed.

Lemma even_pow_nonneg (x : R) (k : nat) : 0 <= x ^ (2 * k).
Proof.
  rewrite pow_sqr. apply pow_le. nra.
Qed.

(** Compounding a daily mean over the trading year gives at least as much
    as scaling it by 252, and gives the same only for a zero mean. *)
Lemma annualisation_gap (m : R) :
  252 * m <= (1 + m) ^ trading_days - 1.
Proof.
  destruct (Rle_dec (-1) m) as [Hm|Hm].
  - pose proof (bernoulli m trading_days Hm) as Hb.
    rewrite INR_trading_days in Hb. lra.
  - change trading_days with (2 * 126)%nat.
    pose proof (even_pow_nonneg (1 + m) 126). lra.
Qed.

Lemma annualisation_gap_strict (m : R) :
  m <> 0 -> 252 * m < (1 + m) ^ trading_days - 1.
Proof.
  intros Hne. destruct (Rle_dec (-1) m) as [Hm|Hm].
  - assert (Hn : (2 <= trading_days)%nat) by (unfold trading_days; lia).
    pose proof (bernoulli_strict m trading_days Hm Hne Hn) as Hb.
    rewrite INR_trading_days in Hb. lra.
  - change trading_days with (2 * 126)%nat.
    pose proof (even_pow_nonneg (1 + m) 126). lra.
Qed.

Lemma annualisation_zero : (1 + 0) ^ trading_days - 1 = 252 * 0.
Proof.
  rewrite Rplus_0_r, pow1. lra.
Qed.

(** The inline ratio, over the divisor it shares with
    [calculate_sharpe_ratio]. *)
Lemma inline_sharpe_ratio_eq (xs : list R) (r : R) :
  xs <> [] ->
  inline_sharpe_ratio xs r = (252 * mean xs - r) / annual_volatility xs.
Proof.
  intros Hne. unfold inline_sharpe_ratio.
  fold (inline_divisor xs r). rewrite inline_divisor_eq.
  rewrite (mean_shift _ xs Hne). f_equal. lra.
Qed.

Lemma not_all_equal_nonempty (xs : list R) : not_all_equal xs -> xs <> [].
Proof.
  intros H ->. apply not_all_equal_length in H. simpl in H. lia.
Qed.

Lemma sharpe_ratio_gap (xs : list R) (r : R) :
  not_all_equal xs ->
  calculated_sharpe_ratio xs r - inline_sharpe_ratio xs r
  = ((1 + mean xs) ^ trading_days - 1 - 252 * mean xs) / annual_volatility xs.
Proof.
  intros Hne.
  rewrite (inline_sharpe_ratio_eq xs r (not_all_equal_nonempty xs Hne)).
  unfold calculated_sharpe_ratio, annual_return.
  pose proof (annual_volatility_pos xs Hne). field. lra.
Qed.

Lemma sharpe_ratio_equal_iff (xs : list R) (r : R) :
  not_all_equal xs ->
  (calculated_sharpe_ratio xs r = inline_sharpe_ratio xs r <-> mean xs = 0).
Proof.
  intros Hne. pose proof (sharpe_ratio_gap xs r Hne) as Hgap.
  pose proof (annual_volatility_pos xs Hne) as Hvol.
  split.
  - intros Heq. destruct (Req_dec_T (mean xs) 0) as [Hz|Hnz]; [exact Hz|].
    exfalso. pose proof (annualisation_gap_strict (mean xs) Hnz) as Hs.
    assert (Hpos : 0 < ((1 + mean xs) ^ trading_days - 1 - 252 * mean xs)
                       / annual_volatility xs)
      by (apply Rdiv_lt_0_compat; lra).
    lra.
  - intros Hz. rewrite Hz in Hgap. rewrite annualisation_zero in Hgap.
    unfold Rdiv in Hgap. rewrite Rminus_diag, Rmult_0_l in Hgap. lra.
Qed.

Lemma sharpe_ratio_ge_inline (xs : list R) (r : R) :
  not_all_equal xs -> inline_sharpe_ratio xs r <= calculated_sharpe_ratio xs r.
Proof.
  intros Hne. pose proof (sharpe_ratio_gap xs r Hne) as Hgap.
  pose proof (annual_volatility_pos xs Hne) as Hvol.
  pose proof (annualisation_gap (mean xs)) as Hg.
  assert (Hpos : 0 <= ((1 + mean xs) ^ trading_days - 1 - 252 * mean xs)
                      / annual_volatility xs).
  { apply Rmult_le_pos; [lra|]. apply Rlt_le, Rinv_0_lt_compat. exact Hvol. }
  lra.
Qed.

Lemma nth_error_enumerate (X : Type) (l : list X) (a j k : nat) (x : X) :
  nth_error (combine (seq a (length l)) l) j = Some (k, x) -> k = (a + j)%nat.
Proof.
  revert a j. induction l as [|y l IH]; intros a j H.
  - destruct j; discriminate.
  - destruct j as [|j]; simpl in H.
    + injection H as <- _. lia.
    + apply IH in H. lia.
Qed.

(** The [j]-th row of the table is the row of the [j]-th column. *)
Lemma calculate_sharpe_ratio_nth (df : DataFrame) (r : R) (adj_close : Frame R)
      (results : Results) (j : nat) (stock : string) (m : Metrics) :
  getitem df "Adj Close" = Returned adj_close ->
  calculate_sharpe_ratio df r = Returned results ->
  nth_error results j = Some (stock, m) ->
  m = metrics_of (column j (daily_returns_of adj_close)) r.
Proof.
  intros Hget Hcalc Hnth.
  rewrite (calculate_sharpe_ratio_rows df r adj_close Hget) in Hcalc.
  injection Hcalc as <-.
  rewrite nth_error_map in Hnth.
  destruct (nth_error (tickers_of (daily_returns_of adj_close)) j)
    as [[k name]|] eqn:Hk; [|discriminate].
  simpl in Hnth. injection Hnth as _ <-.
  apply nth_error_enumerate in Hk. simpl in Hk. subst k. reflexivity.
Qed.

Ltac nonzero_cells :=
  unfold nonzero_frame; repeat (constructor; [repeat constructor; simpl; lra|]);
  constructor.

Lemma rising_prices_nonzero : nonzero_frame rising_prices.
Proof. nonzero_cells. Qed.

Lemma rising_returns_rows :
  rows (daily_returns_of rising_prices)
  = [(1%Z, [110 / 100 - 1]); (2%Z, [132 / 110 - 1])].
Proof.
  rewrite (daily_returns_rows rising_prices 0%Z [100] _ rising_prices_nonzero eq_refl);
    [reflexivity|discriminate].
Qed.

Lemma rising_daily_returns :
  daily_returns_of rising_prices
  = mkFrame ["MSFT"] [(1%Z, [110 / 100 - 1]); (2%Z, [132 / 110 - 1])].
Proof.
  rewrite (daily_returns_frame rising_prices), rising_returns_rows. reflexivity.
Qed.

Lemma rising_column :
  column 0 (daily_returns_of rising_prices) = rising_returns.
Proof. rewrite rising_daily_returns. reflexivity. Qed.

Lemma rising_calculate (r : R) :
  calculate_sharpe_ratio rising_df r = Returned [("MSFT", metrics_of rising_returns r)].
Proof.
  rewrite (calculate_sharpe_ratio_rows rising_df r rising_prices eq_refl).
  rewrite rising_daily_returns. reflexivity.
Qed.

Lemma rising_inline_loop (r : R) :
  inline_loop ["MSFT"] (daily_returns_of rising_prices) r
  = Returned [("MSFT", inline_sharpe_ratio rising_returns r)].
Proof. rewrite rising_daily_returns. reflexivity. Qed.

Lemma rising_not_all_equal : not_all_equal rising_returns.
Proof.
  exists (110 / 100 - 1), (132 / 110 - 1). unfold rising_returns.
  repeat split; simpl; auto. lra.
Qed.

Lemma rising_mean : mean rising_returns = 3 / 20.
Proof.
  unfold mean, rising_returns, total. simpl. lra.
Qed.

(** C8, as stated, fails.  For a ticker rising by 10% and then by 20%, at
    the 3% rate of the last cell, [calculate_sharpe_ratio] and the inline
    loop both return a ratio and the two ratios differ. *)
Lemma implementations_disagree :
  calculate_sharpe_ratio rising_df 0.03
  = Returned [("MSFT", metrics_of rising_returns 0.03)]
  /\ inline_loop ["MSFT"] (daily_returns_of rising_prices) 0.03
     = Returned [("MSFT", inline_sharpe_ratio rising_returns 0.03)]
  /\ Sharpe_Ratio (metrics_of rising_returns 0.03)
     <> inline_sharpe_ratio rising_returns 0.03.
Proof.
  split; [apply rising_calculate|]. split; [apply rising_inline_loop|].
  change (calculated_sharpe_ratio rising_returns 0.03 <> inline_sharpe_ratio rising_returns 0.03).
  intros Heq.
  apply (sharpe_ratio_equal_iff _ _ rising_not_all_equal) in Heq.
  rewrite rising_mean in Heq. lra.
Qed.

(** C8, amended.  For daily returns that are not all equal, the two
    implementations divide by the same volatility but annualise the mean
    differently: [calculate_sharpe_ratio] compounds it, the inline loop
    scales it by 252.  The first ratio exceeds the second by
    ((1 + mean)^252 - 1 - 252 mean) / volatility, is never below it, and
    equals it exactly when the mean daily return is zero. *)
Theorem sharpe_ratio_implementations (stock_returns : list R) (risk_free_rate : R) :
  not_all_equal stock_returns ->
  Sharpe_Ratio (metrics_of stock_returns risk_free_rate)
  = calculated_sharpe_ratio stock_returns risk_free_rate
  /\ inline_divisor stock_returns risk_free_rate
     = Annual_Volatility (metrics_of stock_returns risk_free_rate)
  /\ calculated_sharpe_ratio stock_returns risk_free_rate
     - inline_sharpe_ratio stock_returns risk_free_rate
     = ((1 + mean stock_returns) ^ 252 - 1 - 252 * mean stock_returns)
       / annual_volatility stock_returns
  /\ inline_sharpe_ratio stock_returns risk_free_rate
     <= calculated_sharpe_ratio stock_returns risk_free_rate
  /\ (calculated_sharpe_ratio stock_returns risk_free_rate
      = inline_sharpe_ratio stock_returns risk_free_rate
      <-> mean stock_returns = 0).
Proof.
  intros Hne. split; [reflexivity|]. split; [apply inline_divisor_eq|].
  split; [apply sharpe_ratio_gap; exact Hne|].
  split; [apply sharpe_ratio_ge_inline; exact Hne|].
  apply sharpe_ratio_equal_iff; exact Hne.
Qed.

(* ================================================================== *)
(** * Ranking                                                          *)
(* ================================================================== *)

Lemma insert_desc_perm (row : string * Metrics) (l : Results) :
  Permutation (row :: l) (insert_desc row l).
Proof.
  induction l as [|r l IH]; simpl.
  - apply Permutation_refl.
  - destruct (Rle_dec (Sharpe_Ratio (snd r)) (Sharpe_Ratio (snd row))).
    + apply Permutation_refl.
    + eapply perm_trans; [apply perm_swap|]. apply perm_skip. exact IH.
Qed.

Lemma sort_values_perm (results : Results) :
  Permutation results (sort_values results).
Proof.
  induction results as [|row l IH]; simpl.
  - apply perm_nil.
  - eapply perm_trans; [apply perm_skip; exact IH|]. apply insert_desc_perm.
Qed.

Lemma ranks_above_trans (a b c : string * Metrics) :
  ranks_above a b -> ranks_above b c -> ranks_above a c.
Proof. unfold ranks_above. lra. Qed.

Lemma insert_desc_sorted (row : string * Metrics) (l : Results) :
  StronglySorted ranks_above l -> StronglySorted ranks_above (insert_desc row l).
Proof.
  induction l as [|r l IH]; intros Hs; simpl.
  - constructor; constructor.
  - destruct (Rle_dec (Sharpe_Ratio (snd r)) (Sharpe_Ratio (snd row))) as [Hle|Hgt].
    + constructor; [exact Hs|].
      inversion Hs as [|x xs Hxs Hall]; subst.
      constructor; [exact Hle|].
      eapply Forall_impl; [|exact Hall].
      intros c Hc. eapply ranks_above_trans; [exact Hle | exact Hc].
    + inversion Hs as [|x xs Hxs Hall]; subst.
      constructor; [apply IH; exact Hxs|].
      eapply Permutation_Forall; [apply insert_desc_perm|].
      constructor; [|exact Hall].
      unfold ranks_above. lra.
Qed.

Lemma sort_values_sorted (results : Results) :
  StronglySorted ranks_above (sort_values results).
Proof.
  induction results as [|row l IH]; simpl.
  - constructor.
  - apply insert_desc_sorted. exact IH.
Qed.

Lemma sorted_last_lowest (l : Results) (z : string * Metrics) :
  StronglySorted ranks_above (l ++ [z]) -> Forall (fun x => ranks_above x z) l.
Proof.
  induction l as [|a l IH]; intros Hs; [constructor|].
  simpl in Hs. inversion Hs as [|x xs Hxs Hall]; subst.
  constructor.
  - apply Forall_app in Hall. destruct Hall as [_ Hz].
    inversion Hz; assumption.
  - apply IH. exact Hxs.
Qed.

(** On a column of numbers the sort that places NaN last is
    [sort_values]. *)
Lemma insert_desc_na_ratio (row : string * Metrics) (l : Results) :
  insert_desc_na (fst row, Some (Sharpe_Ratio (snd row))) (ratio_column l)
  = ratio_column (insert_desc row l).
Proof.
  induction l as [|r l IH]; [reflexivity|].
  unfold ratio_column in *. cbn [map insert_desc_na insert_desc].
  unfold goes_before. cbn [snd].
  destruct (Rle_dec (Sharpe_Ratio (snd r)) (Sharpe_Ratio (snd row))).
  - reflexivity.
  - cbn [map]. rewrite IH. reflexivity.
Qed.

Lemma sort_values_na_ratio (results : Results) :
  sort_values_na (ratio_column results) = ratio_column (sort_values results).
Proof.
  induction results as [|row l IH]; [reflexivity|].
  unfold sort_values_na, sort_values in *. cbn [ratio_column map fold_right].
  fold (ratio_column l). rewrite IH. apply insert_desc_na_ratio.
Qed.

(** C10, as stated, fails on a table with a ratio that is no number: the
    sort places the NaN row last, where it is reported as the worst, yet
    its ratio is not less than or equal to that of any other row. *)
Lemma nan_row_ranked_last :
  sort_values_na nan_ratios
  = [("MSFT", Some 0.8001); ("SPY", Some 0.7608); ("INTC", None)]
  /\ hd_error (rev (sort_values_na nan_ratios)) = Some ("INTC", None)
  /\ forall row, In row nan_ratios -> float_le None (snd row) = false.
Proof.
  assert (Hsort : sort_values_na nan_ratios
                  = [("MSFT", Some 0.8001); ("SPY", Some 0.7608); ("INTC", None)]).
  { unfold sort_values_na, nan_ratios.
    cbn [fold_right insert_desc_na goes_before snd].
    destruct (Rle_dec 0.7608 0.8001) as [_|Hgt]; [reflexivity|].
    exfalso. apply Hgt. lra. }
  split; [exact Hsort|]. split; [rewrite Hsort; reflexivity|].
  intros row _. reflexivity.
Qed.

(** C10, amended.  After [sort_values('Sharpe_Ratio', ascending=False)] a
    non-empty table whose ratios are all numbers has a first and a last
    row, both rows of the table; the ratio of the first is at least, and
    the ratio of the last at most, the ratio of every row; [index[0]] and
    [index[-1]], reported as best and worst, are their tickers. *)
Theorem best_and_worst_spec (results : Results) :
  results <> [] ->
  exists best worst : string * Metrics,
    hd_error (sort_values results) = Some best
    /\ hd_error (rev (sort_values results)) = Some worst
    /\ index_first (sort_values results) = Returned (fst best)
    /\ index_last (sort_values results) = Returned (fst worst)
    /\ In best results /\ In worst results
    /\ forall row, In row results ->
         Sharpe_Ratio (snd worst) <= Sharpe_Ratio (snd row)
         /\ Sharpe_Ratio (snd row) <= Sharpe_Ratio (snd best).
Proof.
  intros Hne.
  pose proof (sort_values_perm results) as Hperm.
  pose proof (sort_values_sorted results) as Hsorted.
  destruct (sort_values results) as [|best rest] eqn:Hsort.
  { apply Permutation_sym, Permutation_nil in Hperm. contradiction. }
  destruct (exists_last (l := best :: rest)) as [init [worst Hlast]];
    [discriminate|].
  exists best, worst.
  assert (Hrev : rev (best :: rest) = worst :: rev init).
  { rewrite Hlast, rev_app_distr. reflexivity. }
  split; [reflexivity|].
  split; [rewrite Hrev; reflexivity|].
  split; [reflexivity|].
  split; [unfold index_last; rewrite Hrev; reflexivity|].
  split; [eapply Permutation_in; [apply Permutation_sym; exact Hperm | now left]|].
  split.
  { eapply Permutation_in; [apply Permutation_sym; exact Hperm|].
    rewrite Hlast. apply in_or_app. right. now left. }
  intros row Hrow.
  apply (Permutation_in _ Hperm) in Hrow.
  split.
  - rewrite Hlast in Hsorted, Hrow.
    apply sorted_last_lowest in Hsorted.
    apply in_app_or in Hrow. destruct Hrow as [Hin|[<-|[]]].
    + rewrite Forall_forall in Hsorted. apply (Hsorted row Hin).
    + lra.
  - inversion Hsorted as [|x xs Hxs Hall]; subst.
    destruct Hrow as [<-|Hin]; [lra|].
    rewrite Forall_forall in Hall. apply (Hall row Hin).
Qed.

(* ================================================================== *)
(** * The monad of cells                                               *)
(* ================================================================== *)

Lemma bind_ret_l (A B : Type) (a : A) (k : A -> Cell B) (w : World)
      (tr : list event) :
  bind (ret a) k w tr = k a w tr.
Proof. reflexivity. Qed.

Lemma bind_ret_r (A : Type) (c : Cell A) (w : World) (tr : list event) :
  bind c ret w tr = c w tr.
Proof.
  unfold bind, ret. destruct (c w tr) as [tr' [a|e]]; reflexivity.
Qed.

Lemma bind_assoc (A B C : Type) (c : Cell A) (k : A -> Cell B) (h : B -> Cell C)
      (w : World) (tr : list event) :
  bind (bind c k) h w tr = bind c (fun a => bind (k a) h) w tr.
Proof.
  unfold bind. destruct (c w tr) as [tr' [a|e]]; reflexivity.
Qed.

(** A handler is not entered when the body returns, and receives the
    exception and the trace of the body when it raises. *)
Lemma try_except_returned (A : Type) (body : Cell A) (handler : Exception -> Cell A)
      (w : World) (tr tr' : list event) (a : A) :
  body w tr = (tr', Returned a) -> try_except body handler w tr = (tr', Returned a).
Proof. unfold try_except. intros ->. reflexivity. Qed.

Lemma try_except_raised (A : Type) (body : Cell A) (handler : Exception -> Cell A)
      (w : World) (tr tr' : list event) (e : Exception) :
  body w tr = (tr', Raised e) -> try_except body handler w tr = handler e w tr'.
Proof. unfold try_except. intros ->. reflexivity. Qed.

(* ================================================================== *)
(** * Events of the cells                                              *)
(* ================================================================== *)

Lemma downloads_app (tr evs : list event) :
  downloads (tr ++ evs) = downloads tr ++ downloads evs.
Proof. apply filter_app. Qed.

Lemma writes_app (tr evs : list event) :
  writes (tr ++ evs) = writes tr ++ writes evs.
Proof. apply filter_app. Qed.


Lemma writes_printed (evs : list event) :
  Forall printed evs -> writes evs = [].
Proof.
  induction 1 as [|ev evs Hev _ IH]; [reflexivity|].
  destruct ev; try discriminate. exact IH.
Qed.

Section Emits.
Context (P : event -> Prop).

Lemma emits_ret (A : Type) (a : A) : emits P (ret a).
Proof. intros w tr. exists []. rewrite app_nil_r. split; [reflexivity|constructor]. Qed.

Lemma emits_lift (A : Type) (o : outcome A) : emits P (lift o).
Proof. intros w tr. exists []. rewrite app_nil_r. split; [reflexivity|constructor]. Qed.

Lemma emits_print (line : list fragment) : P (Print line) -> emits P (print line).
Proof.
  intros HP w tr. exists [Print line]. split; [reflexivity|].
  constructor; [exact HP|constructor].
Qed.

Lemma emits_bind (A B : Type) (c : Cell A) (k : A -> Cell B) :
  emits P c -> (forall a, emits P (k a)) -> emits P (bind c k).
Proof.
  intros Hc Hk w tr. unfold bind.
  destruct (Hc w tr) as [evs [Htr Hevs]].
  destruct (c w tr) as [tr' [a|e]]; simpl in Htr; subst tr'.
  - destruct (Hk a w (tr ++ evs)) as [evs' [Htr' Hevs']].
    exists (evs ++ evs'). rewrite Htr', app_assoc. split; [reflexivity|].
    apply Forall_app. split; assumption.
  - exists evs. split; [reflexivity|exact Hevs].
Qed.

Lemma emits_for_each (A : Type) (xs : list A) (body : A -> Cell unit) :
  (forall x, emits P (body x)) -> emits P (for_each xs body).
Proof.
  intros Hbody. induction xs as [|x xs IH]; simpl.
  - apply emits_ret.
  - apply emits_bind; [apply Hbody | intros _; exact IH].
Qed.

Lemma emits_loc_field (results : Results) (stock : string) (field : Metrics -> R) :
  emits P (loc_field results stock field).
Proof.
  unfold loc_field. apply emits_bind; [apply emits_lift|].
  intros m. apply emits_ret.
Qed.
End Emits.

Ltac emits_prints :=
  repeat first
    [ apply emits_bind; [|intros ?]
    | apply emits_print; reflexivity
    | apply emits_loc_field
    | apply emits_lift
    | apply emits_ret ].

Lemma banner_prints (title : string) : emits printed (banner title).
Proof. unfold banner. emits_prints. Qed.

Lemma display_cell_prints (results : Results) : emits printed (display_cell results).
Proof.
  unfold display_cell.
  apply emits_bind; [apply banner_prints|intros _].
  apply emits_bind; [|intros _; apply emits_ret].
  apply emits_for_each. intros stock. emits_prints.
Qed.

Lemma bind_returned (A B : Type) (c : Cell A) (k : A -> Cell B) (w : World)
      (tr : list event) (b : B) :
  snd (bind c k w tr) = Returned b ->
  exists a tr', c w tr = (tr', Returned a) /\ snd (k a w tr') = Returned b.
Proof.
  unfold bind. destruct (c w tr) as [tr' [a|e]]; intros H.
  - exists a, tr'. split; [reflexivity|exact H].
  - discriminate.
Qed.

(** When the display returns, it returns the sorted table. *)
Lemma display_cell_returns (results sorted : Results) (w : World) (tr : list event) :
  snd (display_cell results w tr) = Returned sorted -> sorted = sort_values results.
Proof.
  unfold display_cell. intros H.
  apply bind_returned in H. destruct H as [_ [tr1 [_ H]]].
  apply bind_returned in H. destruct H as [_ [tr2 [_ H]]].
  simpl in H. injection H as <-. reflexivity.
Qed.

Lemma download_cell_run (w : World) (tr : list event) :
  download_cell w tr
  = (tr ++ [downloading_message; Download (stock_request w)],
     provider w (length (downloads tr)) (stock_request w)).
Proof.
  unfold download_cell, bind, datetime_now, print, yf_download.
  rewrite downloads_app, app_nil_r, <- app_assoc. reflexivity.
Qed.

Lemma sharpe_cell_run (df : DataFrame) (r : R) (w : World) (tr : list event) :
  sharpe_cell df r w tr = (tr ++ [calculating_message], calculate_sharpe_ratio df r).
Proof. reflexivity. Qed.

Lemma summary_cell_prints (sorted : Results) : emits printed (summary_cell sorted).
Proof.
  unfold summary_cell.
  apply emits_bind; [apply banner_prints|intros _]. emits_prints.
Qed.

Lemma summary_cell_returns (sorted : Results) (w : World) (tr : list event) :
  snd (summary_cell sorted w tr) = Returned tt.
Proof. reflexivity. Qed.

(* ================================================================== *)
(** * The risk-free rate                                               *)
(* ================================================================== *)

Lemma get_risk_free_rate_run (w : World) (tr : list event) :
  get_risk_free_rate w tr
  = (tr ++ Download irx_request
        :: match irx_fetch w (length (downloads tr)) with
           | Raised e => [fetch_failure_message e]
           | Returned _ => []
           end,
     Returned (rate_of w (length (downloads tr)))).
Proof.
  unfold rate_of, irx_fetch, get_risk_free_rate, try_except, bind, yf_download, lift.
  destruct (provider w (length (downloads tr)) irx_request) as [treasury|e].
  - destruct (last_close treasury) as [close|e]; simpl.
    + reflexivity.
    + unfold print, ret. rewrite <- app_assoc. reflexivity.
  - simpl. unfold print, ret. rewrite <- app_assoc. reflexivity.
Qed.

(** C1.  Whatever exception the data fetch of [get_risk_free_rate] raises,
    be it in the download of ^IRX or in the extraction of its last Close,
    the function catches it, prints one message and returns the default
    rate 0.02.  When the fetch raises nothing, the function prints nothing
    and returns the last Close divided by 100. *)
Theorem get_risk_free_rate_spec (w : World) (tr : list event) :
  let n := length (downloads tr) in
  let irx := Latest "^IRX" "1d" "1d" false in
  let message e :=
    Print [Text "Could not fetch current risk-free rate ("; Str (exc_str e);
           Text "), using default 2%"] in
  (forall e,
      provider w n irx = Raised e ->
      get_risk_free_rate w tr = (tr ++ [Download irx; message e], Returned 0.02))
  /\ (forall treasury e,
         provider w n irx = Returned treasury ->
         last_close treasury = Raised e ->
         get_risk_free_rate w tr = (tr ++ [Download irx; message e], Returned 0.02))
  /\ (forall treasury close,
         provider w n irx = Returned treasury ->
         last_close treasury = Returned close ->
         get_risk_free_rate w tr = (tr ++ [Download irx], Returned (close / 100))).
Proof.
  intros n irx message.
  pose proof (get_risk_free_rate_run w tr) as Hrun.
  unfold rate_of, irx_fetch in Hrun. fold n in Hrun.
  change irx_request with irx in Hrun.
  split; [|split].
  - intros e He. rewrite He in Hrun. exact Hrun.
  - intros treasury e Ht He. rewrite Ht, He in Hrun. exact Hrun.
  - intros treasury close Ht Hc. rewrite Ht, Hc in Hrun. exact Hrun.
Qed.

Lemma risk_free_cell_run (w : World) (tr : list event) :
  risk_free_cell w tr
  = (tr ++ Download irx_request :: rate_prints w (length (downloads tr)),
     Returned (rate_of w (length (downloads tr)))).
Proof.
  unfold risk_free_cell, bind. rewrite get_risk_free_rate_run.
  unfold rate_prints, rate_of, print, is_None_or_isna, ret.
  destruct (irx_fetch w (length (downloads tr))) as [close|e];
    rewrite <- app_assoc; reflexivity.
Qed.

Lemma rate_prints_printed (w : World) (n : nat) : Forall printed (rate_prints w n).
Proof.
  unfold rate_prints. destruct (irx_fetch w n); repeat constructor.
Qed.

(* ================================================================== *)
(** * The export                                                       *)
(* ================================================================== *)

(** Step 6 prints, then either raises or writes the CSV and prints once
    more. *)
Lemma export_cell_run (sorted : Results) (w : World) (tr : list event) :
  exists prints,
    Forall printed prints
    /\ ((exists e, export_cell sorted w tr = (tr ++ prints, Raised e))
        \/ export_cell sorted w tr
           = (tr ++ prints ++ [ToCsv csv_path (round_results 4 sorted); saved_message],
              Returned tt)).
Proof.
  unfold export_cell, bind, lift, loc_field.
  destruct (index_first sorted) as [best|e].
  2:{ exists []. split; [constructor|]. left. exists e. rewrite app_nil_r. reflexivity. }
  destruct (index_last sorted) as [worst|e].
  2:{ exists []. split; [constructor|]. left. exists e. rewrite app_nil_r. reflexivity. }
  unfold bind, lift. destruct (loc sorted best) as [mb|e].
  2:{ exists []. split; [constructor|]. left. exists e. rewrite app_nil_r. reflexivity. }
  unfold ret, print. destruct (loc sorted worst) as [mw|e].
  - eexists [_; _]. split; cycle 1.
    + right. unfold to_csv. rewrite <- !app_assoc. reflexivity.
    + repeat constructor.
  - eexists [_]. split; cycle 1.
    + left. exists e. reflexivity.
    + repeat constructor.
Qed.

(* ================================================================== *)
(** * A run of the analysis                                            *)
(* ================================================================== *)

Ltac trace_eq := rewrite <- ?app_assoc; cbn [app]; reflexivity.

(** The shape of every run: Step 1 prints and downloads the prices; if that
    raises the run is over.  Otherwise Step 2 downloads ^IRX and prints,
    the later steps only print, and the run ends either in an exception or
    in the CSV export of the sorted, rounded table followed by a last
    message. *)
Lemma analysis_run (w : World) :
  (exists e,
      provider w 0 (stock_request w) = Raised e
      /\ run analysis w
         = ([downloading_message; Download (stock_request w)], Raised e))
  \/ (exists df prints,
         provider w 0 (stock_request w) = Returned df
         /\ Forall printed prints
         /\ ((exists e,
                 run analysis w
                 = ([downloading_message; Download (stock_request w);
                     Download irx_request] ++ rate_prints w 1
                    ++ [calculating_message] ++ prints, Raised e))
             \/ (exists results,
                    calculate_sharpe_ratio df (rate_of w 1) = Returned results
                    /\ run analysis w
                       = ([downloading_message; Download (stock_request w);
                           Download irx_request] ++ rate_prints w 1
                          ++ [calculating_message] ++ prints
                          ++ [ToCsv csv_path (round_results 4 (sort_values results));
                              saved_message],
                          Returned tt)))).
Proof.
  remember (run analysis w) as res eqn:Hres.
  unfold run, analysis in Hres. unfold bind at 1 in Hres.
  rewrite download_cell_run in Hres.
  change (length (downloads [])) with 0%nat in Hres. rewrite app_nil_l in Hres.
  destruct (provider w 0 (stock_request w)) as [df|e].
  2:{ left. exists e. split; [reflexivity|exact Hres]. }
  right. exists df.
  unfold bind at 1 in Hres. rewrite risk_free_cell_run in Hres.
  change (length (downloads [downloading_message; Download (stock_request w)]))
    with 1%nat in Hres.
  pose proof (rate_prints_printed w 1) as Hrate.
  unfold bind at 1 in Hres. rewrite sharpe_cell_run in Hres.
  destruct (calculate_sharpe_ratio df (rate_of w 1)) as [results|e] eqn:Hcalc.
  2:{ exists []. split; [reflexivity|]. split; [constructor|].
      left. exists e. rewrite Hres. trace_eq. }
  unfold bind at 1 in Hres.
  match type of Hres with
  | context [display_cell results w ?tr] => set (tr3 := tr) in *
  end.
  destruct (display_cell_prints results w tr3) as [ps [Htr Hps]].
  pose proof (fun s => display_cell_returns results s w tr3) as Hret.
  destruct (display_cell results w tr3) as [tr4 [sorted|e]];
    cbn [fst] in Htr; subst tr4.
  2:{ exists ps. split; [reflexivity|]. split; [assumption|].
      left. exists e. rewrite Hres. unfold tr3. trace_eq. }
  rewrite (Hret sorted eq_refl) in Hres. clear Hret.
  unfold bind at 1 in Hres.
  destruct (summary_cell_prints (sort_values results) w (tr3 ++ ps))
    as [ps2 [Htr2 Hps2]].
  pose proof (summary_cell_returns (sort_values results) w (tr3 ++ ps)) as Hsum.
  destruct (summary_cell (sort_values results) w (tr3 ++ ps)) as [tr5 o].
  cbn [fst snd] in Htr2, Hsum. subst tr5 o.
  destruct (export_cell_run (sort_values results) w ((tr3 ++ ps) ++ ps2))
    as [ps3 [Hps3 [[e He]|Hok]]];
    exists (ps ++ ps2 ++ ps3);
    (split; [reflexivity|]);
    (split; [repeat (apply Forall_app; split); assumption|]).
  - left. exists e. rewrite Hres, He. unfold tr3. trace_eq.
  - right. exists results. split; [reflexivity|].
    rewrite Hres, Hok. unfold tr3. trace_eq.
Qed.

(** The last cell downloads the prices once and prints at most its table. *)
Lemma inline_analysis_run (w : World) :
  exists prints,
    Forall printed prints
    /\ fst (run inline_analysis w) = Download (stock_request w) :: prints.
Proof.
  unfold run, inline_analysis, bind, datetime_now, yf_download, lift.
  change (length (downloads [])) with 0%nat.
  change (History stocks (now w - timedelta (365 * 5))%Z (now w) false)
    with (stock_request w).
  destruct (provider w 0 (stock_request w)) as [prices|e].
  2:{ exists []. split; [constructor|reflexivity]. }
  destruct (getitem prices "Adj Close") as [df|e].
  2:{ exists []. split; [constructor|reflexivity]. }
  destruct (inline_loop stocks (dropna (pct_change df)) 0.03) as [ratios|e].
  2:{ exists []. split; [constructor|reflexivity]. }
  eexists [_]. split; cycle 1.
  - reflexivity.
  - repeat constructor.
Qed.

Lemma price_requests_printed (evs : list event) :
  Forall printed evs -> price_requests evs = [].
Proof.
  induction 1 as [|ev evs Hev _ IH]; [reflexivity|].
  destruct ev; try discriminate. exact IH.
Qed.

Lemma price_requests_app (tr evs : list event) :
  price_requests (tr ++ evs) = price_requests tr ++ price_requests evs.
Proof. apply filter_app. Qed.

(** C4.  In every world the analysis (and the last cell as well) asks the
    provider for price history exactly once, and the request is the same
    literal one: the tickers MSFT, QQQ, INTC, SPY, from 5*365 days before
    the current time up to the current time.  Nothing but the clock enters
    the request. *)
Theorem price_request_fixed (w : World) :
  price_requests (fst (run analysis w))
  = [Download (History ["MSFT"; "QQQ"; "INTC"; "SPY"]
                       (now w - timedelta (5 * 365))%Z (now w) false)]
  /\ price_requests (fst (run inline_analysis w))
     = [Download (History ["MSFT"; "QQQ"; "INTC"; "SPY"]
                          (now w - timedelta (5 * 365))%Z (now w) false)]
  /\ (now w - (now w - timedelta (5 * 365)) = 1825 * 86400 * 1000000)%Z.
Proof.
  fold (stock_request w). split; [|split].
  - destruct (analysis_run w) as [[e [_ Hrun]]|[df [prints [_ [Hprints Hrun]]]]].
    + rewrite Hrun. reflexivity.
    + pose proof (price_requests_printed _ Hprints) as Hp.
      pose proof (price_requests_printed _ (rate_prints_printed w 1)) as Hr.
      destruct Hrun as [[e Hrun]|[results [_ Hrun]]]; rewrite Hrun;
        cbn [fst]; rewrite !price_requests_app, Hp, Hr; reflexivity.
  - destruct (inline_analysis_run w) as [prints [Hprints Hrun]].
    rewrite Hrun. change (Download (stock_request w) :: prints)
      with ([Download (stock_request w)] ++ prints).
    rewrite price_requests_app, (price_requests_printed _ Hprints). reflexivity.
  - unfold timedelta. lia.
Qed.



(** C7.  [calculate_sharpe_ratio] is a function of its two arguments: given
    the same price table and the same risk-free rate it returns the same
    table (or raises the same exception), whatever the world and whatever
    happened before the call. *)
Theorem calculate_sharpe_ratio_deterministic
        (df1 df2 : DataFrame) (r1 r2 : R) (w1 w2 : World) (tr1 tr2 : list event) :
  df1 = df2 -> r1 = r2 ->
  calculate_sharpe_ratio df1 r1 = calculate_sharpe_ratio df2 r2
  /\ snd (sharpe_cell df1 r1 w1 tr1) = snd (sharpe_cell df2 r2 w2 tr2).
Proof.
  intros -> ->. split; reflexivity.
Qed.

(* ================================================================== *)
(** * The statements at sample inputs                                  *)
(* ================================================================== *)

Lemma sharpe_ratio_column_witness :
  calculate_sharpe_ratio rising_df 0.03
  = Returned [("MSFT", metrics_of rising_returns 0.03)]
  /\ Sharpe_Ratio (metrics_of rising_returns 0.03)
     = (Annual_Return (metrics_of rising_returns 0.03) - 0.03)
       / Annual_Volatility (metrics_of rising_returns 0.03).
Proof.
  split; [apply rising_calculate|].
  apply (sharpe_ratio_column_spec rising_df 0.03
           [("MSFT", metrics_of rising_returns 0.03)] (rising_calculate 0.03) "MSFT").
  left. reflexivity.
Defined.

Lemma rising_prices_wf : wf_frame rising_prices.
Proof. repeat constructor. Defined.

Lemma daily_returns_witness :
  S (length (rows (daily_returns_of rising_prices))) = 3%nat
  /\ index (daily_returns_of rising_prices) = [1%Z; 2%Z]
  /\ nth 0 (column 0 (daily_returns_of rising_prices)) 0 = 110 / 100 - 1
  /\ nth 1 (column 0 (daily_returns_of rising_prices)) 0 = 132 / 110 - 1.
Proof.
  assert (Hcols : columns rising_prices <> []) by discriminate.
  assert (Hlen : (2 <= length (rows rising_prices))%nat) by (simpl; lia).
  destruct (daily_returns_spec rising_prices rising_prices_wf rising_prices_nonzero
              Hcols Hlen) as [Hrows [Hindex [_ Hcell]]].
  assert (Hcount : length (rows (daily_returns_of rising_prices)) = 2%nat)
    by (rewrite rising_returns_rows; reflexivity).
  split; [exact Hrows|]. split; [exact Hindex|]. split.
  - apply (Hcell 0%nat 0%nat); [simpl; lia|rewrite Hcount; lia].
  - apply (Hcell 0%nat 1%nat); [simpl; lia|rewrite Hcount; lia].
Defined.

Lemma calculate_sharpe_ratio_deterministic_witness :
  calculate_sharpe_ratio rising_df 0.03 = calculate_sharpe_ratio rising_df 0.03
  /\ snd (sharpe_cell rising_df 0.03 market_world [])
     = snd (sharpe_cell rising_df 0.03 offline_world [downloading_message]).
Proof.
  apply (calculate_sharpe_ratio_deterministic rising_df rising_df 0.03 0.03
           market_world offline_world [] [downloading_message] eq_refl eq_refl).
Defined.

Lemma sharpe_ratio_implementations_witness :
  not_all_equal rising_returns
  /\ inline_sharpe_ratio rising_returns 0.03 <= calculated_sharpe_ratio rising_returns 0.03.
Proof.
  split; [exact rising_not_all_equal|].
  apply (sharpe_ratio_implementations rising_returns 0.03 rising_not_all_equal).
Defined.

Lemma best_and_worst_witness :
  index_first (sort_values notebook_results) = Returned "MSFT"
  /\ index_last (sort_values notebook_results) = Returned "INTC".
Proof.
  assert (Hne : notebook_results <> []) by discriminate.
  destruct (best_and_worst_spec notebook_results Hne)
    as [best [worst [_ [_ [Hfirst [Hlast [Hbest [Hworst Hall]]]]]]]].
  assert (Hintc : In ("INTC", mkMetrics (-0.101199) 0.432893 (-0.1432) (-0.3309)
                                        (-10.1199) 43.2893 (-14.32)) notebook_results)
    by (left; reflexivity).
  assert (Hmsft : In ("MSFT", mkMetrics 0.259443 0.271729 0.2174 0.8001
                                        25.9443 27.1729 21.74) notebook_results)
    by (right; left; reflexivity).
  destruct (Hall _ Hintc) as [Hlow _]. destruct (Hall _ Hmsft) as [_ Hhigh].
  cbn [snd Sharpe_Ratio] in Hlow, Hhigh.
  split.
  - rewrite Hfirst. clear Hfirst Hlast Hworst Hall Hlow.
    destruct Hbest as [<-|[<-|[<-|[<-|[]]]]]; cbn [fst snd Sharpe_Ratio] in *;
      try reflexivity; exfalso; lra.
  - rewrite Hlast. clear Hfirst Hlast Hbest Hall Hhigh.
    destruct Hworst as [<-|[<-|[<-|[<-|[]]]]]; cbn [fst snd Sharpe_Ratio] in *;
      try reflexivity; exfalso; lra.
Defined.

(** With prices and the treasury rate served, the analysis runs to its end
    at the rate 4.2 / 100 and writes the CSV. *)
Example analysis_completes :
  snd (run analysis market_world) = Returned tt
  /\ rate_of market_world 1 = 4.2 / 100
  /\ writes (fst (run analysis market_world))
     = [ToCsv "sharpe_ratio_analysis.csv"
              (round_results 4 [("MSFT", metrics_of rising_returns (4.2 / 100))])].
Proof.
  split; [reflexivity|]. split; [reflexivity|].
  unfold run, analysis, bind, download_cell, risk_free_cell, sharpe_cell,
    get_risk_free_rate, try_except, datetime_now, print, yf_download, lift, ret.
  cbn [provider market_world]. cbn -[calculate_sharpe_ratio].
  rewrite rising_calculate. reflexivity.
Qed.

Lemma get_risk_free_rate_witness :
  snd (get_risk_free_rate no_treasury_world []) = Returned 0.02
  /\ snd (get_risk_free_rate empty_treasury_world []) = Returned 0.02
  /\ get_risk_free_rate market_world []
     = ([Download (Latest "^IRX" "1d" "1d" false)], Returned (4.2 / 100)).
Proof.
  destruct (get_risk_free_rate_spec no_treasury_world []) as [Hraise _].
  destruct (get_risk_free_rate_spec empty_treasury_world []) as [_ [Hextract _]].
  destruct (get_risk_free_rate_spec market_world []) as [_ [_ Hclose]].
  split; [|split].
  - rewrite (Hraise connection_error eq_refl). reflexivity.
  - rewrite (Hextract empty_treasury_df
               (IndexError "single positional indexer is out-of-bounds")
               eq_refl eq_refl).
    reflexivity.
  - apply (Hclose treasury_df 4.2 eq_refl eq_refl).
Defined.

(* ================================================================== *)
(** * Further properties of [calculate_sharpe_ratio]                   *)
(* ================================================================== *)

Lemma getitem_raised (df : DataFrame) (key : string) (e : Exception) :
  getitem df key = Raised e <-> ~ In key (map fst df) /\ e = KeyError key.
Proof.
  induction df as [|[k f] df IH]; simpl.
  - split.
    + intros H. injection H as <-. split; [tauto|reflexivity].
    + intros [_ ->]. reflexivity.
  - destruct (String.eqb_spec k key) as [->|Hneq].
    + split; [discriminate|]. intros [Hnot _]. exfalso. apply Hnot. now left.
    + rewrite IH. split; intros [Hnot He]; (split; [|exact He]).
      * intros [Heq|Hin]; [contradiction|]. apply Hnot, Hin.
      * intros Hin. apply Hnot. now right.
Qed.

Lemma getitem_present (df : DataFrame) (key : string) :
  In key (map fst df) -> exists f, getitem df key = Returned f /\ In (key, f) df.
Proof.
  induction df as [|[k f] df IH]; simpl; [tauto|].
  intros Hin. destruct (String.eqb_spec k key) as [->|Hneq].
  - exists f. split; [reflexivity|now left].
  - destruct Hin as [Heq|Hin]; [contradiction|].
    destruct (IH Hin) as [g [Hg Hing]]. exists g. split; [exact Hg|now right].
Qed.

(** X1.  [calculate_sharpe_ratio] raises exactly when the table has no
    'Adj Close' field, and then raises KeyError('Adj Close'); with the field
    present it returns a table, whatever the prices and the rate. *)
Theorem calculate_sharpe_ratio_key_error (df : DataFrame) (risk_free_rate : R) :
  (forall e,
      calculate_sharpe_ratio df risk_free_rate = Raised e
      <-> ~ In "Adj Close" (map fst df) /\ e = mkException "KeyError" "'Adj Close'")
  /\ ((exists results, calculate_sharpe_ratio df risk_free_rate = Returned results)
      <-> In "Adj Close" (map fst df)).
Proof.
  split.
  - intros e. rewrite calculate_sharpe_ratio_raises. apply getitem_raised.
  - split.
    + intros [results Hcalc].
      destruct (in_dec string_dec "Adj Close" (map fst df)) as [Hin|Hnot]; [exact Hin|].
      assert (Hraise : calculate_sharpe_ratio df risk_free_rate
                       = Raised (KeyError "Adj Close")).
      { apply calculate_sharpe_ratio_raises, getitem_raised. split; [exact Hnot|reflexivity]. }
      rewrite Hraise in Hcalc. discriminate.
    + intros Hin. destruct (getitem_present df "Adj Close" Hin) as [f [Hget _]].
      eexists. apply (calculate_sharpe_ratio_rows df risk_free_rate f Hget).
Qed.

Lemma enumerate_labels (X : Type) (l : list X) (a : nat) :
  map snd (combine (seq a (length l)) l) = l.
Proof.
  revert a. induction l as [|x l IH]; intros a; simpl; [reflexivity|].
  now rewrite IH.
Qed.

Lemma results_index (df : DataFrame) (risk_free_rate : R)
        (adj_close : Frame R) (results : Results) :
  getitem df "Adj Close" = Returned adj_close ->
  calculate_sharpe_ratio df risk_free_rate = Returned results ->
  map fst results = columns adj_close
  /\ length results = length (columns adj_close).
Proof.
  intros Hget Hcalc.
  rewrite (calculate_sharpe_ratio_rows df risk_free_rate adj_close Hget) in Hcalc.
  injection Hcalc as <-.
  assert (Hidx : map fst (map (fun jn : nat * string =>
                                 (snd jn, metrics_of (column (fst jn)
                                                        (daily_returns_of adj_close))
                                                     risk_free_rate))
                              (tickers_of (daily_returns_of adj_close)))
                 = columns adj_close).
  { rewrite map_map. simpl. unfold tickers_of. simpl columns.
    apply enumerate_labels. }
  split; [exact Hidx|].
  rewrite <- Hidx. rewrite !length_map. reflexivity.
Qed.

(** X2.  The table [calculate_sharpe_ratio] returns has one row per ticker
    column of the 'Adj Close' prices, labelled by the tickers in the order
    of the columns, also when there are too few prices to have a return. *)
Theorem results_index_spec (df : DataFrame) (risk_free_rate : R)
        (adj_close : Frame R) (results : Results) :
  getitem df "Adj Close" = Returned adj_close ->
  calculate_sharpe_ratio df risk_free_rate = Returned results ->
  map fst results = columns adj_close
  /\ length results = length (columns adj_close).
Proof. exact (results_index df risk_free_rate adj_close results). Qed.

(** X3.  In every row of the returned table the excess return is the
    annual return less the risk-free rate, and the three percentage columns
    are 100 times the annual return, the annual volatility and the excess
    return of that row. *)
Theorem results_derived_columns (df : DataFrame) (risk_free_rate : R)
        (results : Results) (stock : string) (m : Metrics) :
  calculate_sharpe_ratio df risk_free_rate = Returned results ->
  In (stock, m) results ->
  Excess_Return m = Annual_Return m - risk_free_rate
  /\ Annual_Return_Pct m = Annual_Return m * 100
  /\ Annual_Volatility_Pct m = Annual_Volatility m * 100
  /\ Excess_Return_Pct m = Excess_Return m * 100.
Proof.
  intros Hcalc Hin.
  destruct (getitem df "Adj Close") as [adj_close|e] eqn:Hget.
  - rewrite (calculate_sharpe_ratio_rows df risk_free_rate adj_close Hget) in Hcalc.
    injection Hcalc as <-.
    apply in_map_iff in Hin. destruct Hin as [jn [Heq _]].
    injection Heq as _ <-. repeat split; reflexivity.
  - apply calculate_sharpe_ratio_raises with (r := risk_free_rate) in Hget.
    rewrite Hget in Hcalc. discriminate.
Qed.

Lemma std_nonneg (xs : list R) : 0 <= std xs.
Proof. unfold std. apply sqrt_pos. Qed.

Lemma annual_return_lower_bound (xs : list R) : -1 <= annual_return xs.
Proof.
  unfold annual_return. change trading_days with (2 * 126)%nat.
  pose proof (even_pow_nonneg (1 + mean xs) 126). lra.
Qed.

(** X4.  No row of the returned table has an annual return below -1 (a
    loss of more than everything) or a negative annual volatility. *)
Theorem results_bounds (df : DataFrame) (risk_free_rate : R)
        (results : Results) (stock : string) (m : Metrics) :
  calculate_sharpe_ratio df risk_free_rate = Returned results ->
  In (stock, m) results ->
  -1 <= Annual_Return m /\ 0 <= Annual_Volatility m.
Proof.
  intros Hcalc Hin.
  destruct (getitem df "Adj Close") as [adj_close|e] eqn:Hget.
  - rewrite (calculate_sharpe_ratio_rows df risk_free_rate adj_close Hget) in Hcalc.
    injection Hcalc as <-.
    apply in_map_iff in Hin. destruct Hin as [jn [Heq _]].
    injection Heq as _ <-. simpl. split.
    + apply annual_return_lower_bound.
    + unfold annual_volatility. apply Rmult_le_pos; [apply std_nonneg|apply sqrt_pos].
  - apply calculate_sharpe_ratio_raises with (r := risk_free_rate) in Hget.
    rewrite Hget in Hcalc. discriminate.
Qed.

(* ================================================================== *)
(** * Further properties of the daily returns                          *)
(* ================================================================== *)

Lemma scaled_quotient (c x y : R) : c <> 0 -> (c * x) / (c * y) = x / y.
Proof.
  intros Hc. unfold Rdiv. rewrite Rinv_mult.
  replace (c * x * (/ c * / y)) with ((c * / c) * (x * / y)) by ring.
  rewrite Rinv_r by exact Hc. ring.
Qed.

Lemma scaled_zero (c x : R) : c <> 0 -> (c * x = 0 <-> x = 0).
Proof.
  intros Hc. split.
  - intros H. apply Rmult_integral in H. destruct H; [contradiction|assumption].
  - intros ->. ring.
Qed.

Lemma pct_cell_scale (c prev cur : R) :
  c <> 0 -> pct_cell (c * prev) (c * cur) = pct_cell prev cur.
Proof.
  intros Hc. unfold pct_cell.
  pose proof (scaled_zero c prev Hc) as Hp. pose proof (scaled_zero c cur Hc) as Hx.
  rewrite (scaled_quotient c cur prev Hc).
  destruct (Req_dec_T (c * prev) 0) as [H1|H1], (Req_dec_T prev 0) as [H2|H2];
    try tauto;
    destruct (Req_dec_T (c * cur) 0) as [H3|H3], (Req_dec_T cur 0) as [H4|H4];
    try tauto; reflexivity.
Qed.

Lemma pct_row_scale (c : R) (prev cur : list R) :
  c <> 0 ->
  map (fun pc => pct_cell (fst pc) (snd pc))
      (combine (map (Rmult c) prev) (map (Rmult c) cur))
  = map (fun pc => pct_cell (fst pc) (snd pc)) (combine prev cur).
Proof.
  intros Hc. revert cur. induction prev as [|p prev IH]; intros cur; [reflexivity|].
  destruct cur as [|x cur]; [reflexivity|].
  cbn [map combine fst snd].
  rewrite IH, (pct_cell_scale c p x Hc). reflexivity.
Qed.

Lemma pct_rows_scale (c : R) (prev : list R) (rs : list (datetime * list R)) :
  c <> 0 ->
  pct_rows (map (Rmult c) prev) (map (fun r => (fst r, map (Rmult c) (snd r))) rs)
  = pct_rows prev rs.
Proof.
  intros Hc. revert prev. induction rs as [|[t cur] rs IH]; intros prev; simpl.
  - reflexivity.
  - rewrite (pct_row_scale c prev cur Hc), IH. reflexivity.
Qed.

Lemma daily_returns_scale (c : R) (f : Frame R) :
  c <> 0 -> daily_returns_of (scale_frame c f) = daily_returns_of f.
Proof.
  intros Hc. unfold daily_returns_of, dropna, pct_change, scale_frame. simpl.
  destruct (rows f) as [|[t first] rest]; simpl; [reflexivity|].
  rewrite (pct_rows_scale c first rest Hc), map_map. reflexivity.
Qed.

Lemma getitem_scale (c : R) (df : DataFrame) (key : string) :
  getitem (scale_prices c df) key
  = match getitem df key with
    | Returned f => Returned (scale_frame c f)
    | Raised e => Raised e
    end.
Proof.
  induction df as [|[k f] df IH]; simpl; [reflexivity|].
  destruct (String.eqb k key); [reflexivity|exact IH].
Qed.

(** X5.  The result does not depend on the unit prices are quoted in: with
    every price multiplied by the same nonzero factor, the daily returns
    and the whole table of [calculate_sharpe_ratio] are unchanged. *)
Theorem calculate_sharpe_ratio_scale_invariant (c : R) (df : DataFrame)
        (risk_free_rate : R) :
  c <> 0 ->
  calculate_sharpe_ratio (scale_prices c df) risk_free_rate
  = calculate_sharpe_ratio df risk_free_rate.
Proof.
  intros Hc. unfold calculate_sharpe_ratio. rewrite getitem_scale.
  destruct (getitem df "Adj Close") as [adj_close|e]; [|reflexivity].
  rewrite (daily_returns_scale c adj_close Hc). reflexivity.
Qed.

Lemma column_change_rows (prev : list R) (rs : list (datetime * list R)) (j : nat) :
  (j < length prev)%nat ->
  Forall (fun r => length (snd r) = length prev) rs ->
  map (fun r => nth j (snd r) 0) (change_rows prev rs)
  = returns_from (nth j prev 0) (map (fun r => nth j (snd r) 0) rs).
Proof.
  revert prev. induction rs as [|[t cur] rs IH]; intros prev Hj Hwf; [reflexivity|].
  inversion Hwf as [|r l Hcur Hrest]; subst. simpl in Hcur. simpl.
  rewrite nth_change by lia. f_equal.
  apply IH; [lia|].
  eapply Forall_impl; [|exact Hrest]. simpl. intros r Hr. lia.
Qed.

Lemma column_of_daily_returns (f : Frame R) (j : nat) :
  wf_frame f ->
  nonzero_frame f ->
  (j < length (columns f))%nat ->
  column j (daily_returns_of f) = series_returns (column j f).
Proof.
  intros Hwf Hnz Hj. unfold column at 2.
  destruct (rows f) as [|[t first] rest] eqn:Hrows.
  - unfold column, daily_returns_of, dropna, pct_change. cbn [rows columns].
    rewrite Hrows. reflexivity.
  - unfold wf_frame in Hwf. rewrite Hrows in Hwf.
    inversion Hwf as [|r l Hfirst Hrest]; subst. simpl in Hfirst.
    assert (Hne : first <> []) by (intros ->; simpl in Hfirst; lia).
    unfold column. rewrite (daily_returns_rows f t first rest Hnz Hrows Hne).
    simpl. apply column_change_rows; [lia|].
    eapply Forall_impl; [|exact Hrest]. simpl. intros r Hr. lia.
Qed.

(** X6.  On a well-formed table without a zero price
    [pct_change().dropna()] works ticker by ticker: the daily returns in
    the column of a ticker are the relative changes along that ticker's
    own prices. *)
Theorem column_daily_returns (f : Frame R) (j : nat) :
  wf_frame f ->
  nonzero_frame f ->
  (j < length (columns f))%nat ->
  column j (daily_returns_of f) = series_returns (column j f).
Proof. exact (column_of_daily_returns f j). Qed.

Lemma column_forall (P : R -> Prop) (f : Frame R) (j : nat) :
  wf_frame f ->
  Forall (fun r => Forall P (snd r)) (rows f) ->
  (j < length (columns f))%nat ->
  Forall P (column j f).
Proof.
  intros Hwf Hall Hj. unfold column, wf_frame in *.
  induction (rows f) as [|r rs IH]; [constructor|].
  inversion Hwf as [|x l Hlen Hwf']; subst.
  inversion Hall as [|x l Hr Hall']; subst.
  simpl. constructor; [|apply IH; assumption].
  rewrite Forall_forall in Hr. apply Hr. apply nth_In. lia.
Qed.

Lemma positive_nonzero_frame (f : Frame R) : positive_frame f -> nonzero_frame f.
Proof.
  unfold positive_frame, nonzero_frame. intros H.
  eapply Forall_impl; [|exact H]. intros r Hr.
  eapply Forall_impl; [|exact Hr]. simpl. intros p Hp. lra.
Qed.

Lemma last_cons (p d : R) (l : list R) : last (p :: l) d = last l p.
Proof.
  revert p d. induction l as [|q l IH]; intros p d; [reflexivity|].
  change (last (p :: q :: l) d) with (last (q :: l) d).
  rewrite (IH q d). symmetry. apply IH.
Qed.

Lemma compound_returns_from (p0 : R) (prices : list R) :
  p0 <> 0 ->
  Forall (fun p => p <> 0) prices ->
  p0 * compound (returns_from p0 prices) = last prices p0.
Proof.
  revert p0. induction prices as [|p rest IH]; intros p0 Hp0 Hall.
  - simpl. unfold compound. simpl. lra.
  - inversion Hall as [|x l Hp Hrest]; subst.
    rewrite last_cons. rewrite <- (IH p Hp Hrest).
    change (compound (returns_from p0 (p :: rest)))
      with ((1 + (p / p0 - 1)) * compound (returns_from p rest)).
    field. exact Hp0.
Qed.

(** X7.  Compounding the daily returns of a ticker gives back its prices:
    on a well-formed table without a zero price, the first price of a
    ticker times the product of the factors (1 + return) is its last
    price. *)
Theorem daily_returns_compound (f : Frame R) (j : nat) :
  wf_frame f ->
  nonzero_frame f ->
  (j < length (columns f))%nat ->
  nth 0 (column j f) 0 * compound (column j (daily_returns_of f))
  = last (column j f) 0.
Proof.
  intros Hwf Hnz Hj. rewrite (column_of_daily_returns f j Hwf Hnz Hj).
  pose proof (column_forall (fun p => p <> 0) f j Hwf Hnz Hj) as Hcol.
  destruct (column j f) as [|p0 prices]; simpl.
  - unfold compound. simpl. lra.
  - inversion Hcol as [|x l Hp0 Hrest]; subst.
    rewrite (compound_returns_from p0 prices Hp0 Hrest).
    symmetry. apply last_cons.
Qed.

Lemma returns_from_above (p0 : R) (prices : list R) :
  0 < p0 ->
  Forall (fun p => 0 < p) prices ->
  Forall (fun x => -1 < x) (returns_from p0 prices).
Proof.
  revert p0. induction prices as [|p rest IH]; intros p0 Hp0 Hall; [constructor|].
  inversion Hall as [|x l Hp Hrest]; subst. simpl. constructor.
  - assert (0 < p / p0) by (apply Rdiv_lt_0_compat; assumption). lra.
  - apply IH; assumption.
Qed.

Lemma total_above (a : R) (xs : list R) :
  Forall (fun x => a < x) xs -> xs <> [] -> INR (length xs) * a < total xs.
Proof.
  induction 1 as [|x xs Hx Hall IH]; intros Hne; [contradiction|].
  change (length (x :: xs)) with (S (length xs)). rewrite S_INR.
  change (total (x :: xs)) with (x + total xs).
  destruct xs as [|y ys].
  - simpl. lra.
  - assert (INR (length (y :: ys)) * a < total (y :: ys)) by (apply IH; discriminate).
    lra.
Qed.

Lemma mean_above (a : R) (xs : list R) :
  Forall (fun x => a < x) xs -> xs <> [] -> a < mean xs.
Proof.
  intros Hall Hne. unfold mean.
  pose proof (total_above a xs Hall Hne) as Htot.
  pose proof (INR_length_pos _ xs Hne) as Hn.
  apply Rmult_lt_reg_r with (r := INR (length xs)); [exact Hn|].
  unfold Rdiv. rewrite Rmult_assoc, Rinv_l by lra. lra.
Qed.

(** X8.  On a well-formed table whose prices are all positive, no daily
    return of a ticker is below -1, and with at least two rows of prices
    neither is their mean. *)
Theorem positive_prices_returns (f : Frame R) (j : nat) :
  wf_frame f ->
  positive_frame f ->
  (j < length (columns f))%nat ->
  Forall (fun x => -1 <= x) (column j (daily_returns_of f))
  /\ ((2 <= length (rows f))%nat -> -1 <= mean (column j (daily_returns_of f))).
Proof.
  intros Hwf Hpos Hj.
  rewrite (column_of_daily_returns f j Hwf (positive_nonzero_frame f Hpos) Hj).
  pose proof (column_forall (fun p => 0 < p) f j Hwf Hpos Hj) as Hcol.
  assert (Hall : Forall (fun x => -1 < x) (series_returns (column j f))).
  { destruct (column j f) as [|p0 prices]; [constructor|].
    inversion Hcol; subst. apply returns_from_above; assumption. }
  split.
  - eapply Forall_impl; [|exact Hall]. simpl. intros x Hx. lra.
  - intros Hlen.
    assert (Hne : series_returns (column j f) <> []).
    { unfold column. destruct (rows f) as [|r0 [|r1 rest]]; simpl in *; try lia.
      discriminate. }
    pose proof (mean_above (-1) _ Hall Hne) as Hmean. lra.
Qed.

Lemma notna_row_length (cells : list (option R)) (xs : list R) :
  notna_row cells = Some xs -> length xs = length cells.
Proof.
  revert xs. induction cells as [|c cells IH]; intros xs H; simpl in H.
  - injection H as <-. reflexivity.
  - destruct c as [x|]; [|discriminate].
    destruct (notna_row cells) as [ys|]; [|discriminate].
    injection H as <-. simpl. rewrite (IH ys eq_refl). reflexivity.
Qed.

Lemma dropna_rows_length (n : nat) (rs : list (datetime * list (option R))) :
  Forall (fun r => length (snd r) = n) rs ->
  Forall (fun r => length (snd r) = n) (dropna_rows rs).
Proof.
  induction 1 as [|[t cells] rs Hlen _ IH]; [constructor|].
  simpl. destruct (notna_row cells) as [xs|] eqn:Hxs; [|exact IH].
  constructor; [|exact IH]. simpl in *.
  rewrite (notna_row_length cells xs Hxs). exact Hlen.
Qed.

Lemma pct_rows_length (n : nat) (prev : list R) (rs : list (datetime * list R)) :
  length prev = n ->
  Forall (fun r => length (snd r) = n) rs ->
  Forall (fun r => length (snd r) = n) (pct_rows prev rs).
Proof.
  intros Hprev Hrs. revert prev Hprev.
  induction Hrs as [|[t cur] rs Hcur _ IH]; intros prev Hprev; [constructor|].
  simpl in Hcur. cbn [pct_rows]. constructor.
  - simpl. rewrite length_map, length_combine. lia.
  - apply IH. exact Hcur.
Qed.

(** X9.  The daily returns keep the ticker columns of the prices and stay
    well formed; a table of fewer than two rows has no daily return at
    all. *)
Theorem daily_returns_shape (f : Frame R) :
  wf_frame f ->
  columns f <> [] ->
  columns (daily_returns_of f) = columns f
  /\ wf_frame (daily_returns_of f)
  /\ ((length (rows f) <= 1)%nat -> rows (daily_returns_of f) = []).
Proof.
  intros Hwf Hcols. split; [reflexivity|].
  unfold wf_frame in *.
  change (columns (daily_returns_of f)) with (columns f).
  unfold daily_returns_of, dropna, pct_change. cbn [rows columns].
  destruct (rows f) as [|[t first] rest] eqn:Hrows.
  - split; [constructor|reflexivity].
  - inversion Hwf as [|r l Hfirst Hrest]; subst. simpl in Hfirst.
    split.
    + apply dropna_rows_length. constructor.
      * simpl. rewrite length_map. exact Hfirst.
      * apply pct_rows_length; assumption.
    + intros Hlen. simpl in Hlen. destruct rest; [|simpl in Hlen; lia].
      destruct first as [|x first].
      * simpl in Hfirst. destruct (columns f); [contradiction|discriminate].
      * reflexivity.
Qed.

(** X22.  On a well-formed table without a zero price, a ticker whose daily
    returns are not all equal has a positive annual volatility, so that the
    division of Step 3 has a nonzero divisor and its quotient times the
    divisor gives back the excess return; the inline loop divides by the
    same number. *)
Theorem volatility_positive (df : DataFrame) (risk_free_rate : R)
        (adj_close : Frame R) (results : Results) (j : nat) (stock : string)
        (m : Metrics) :
  getitem df "Adj Close" = Returned adj_close ->
  wf_frame adj_close ->
  nonzero_frame adj_close ->
  calculate_sharpe_ratio df risk_free_rate = Returned results ->
  nth_error results j = Some (stock, m) ->
  not_all_equal (series_returns (column j adj_close)) ->
  0 < Annual_Volatility m
  /\ Sharpe_Ratio m * Annual_Volatility m = Excess_Return m
  /\ inline_divisor (series_returns (column j adj_close)) risk_free_rate
     = Annual_Volatility m.
Proof.
  intros Hget Hwf Hnz Hcalc Hnth Hne.
  assert (Hj : (j < length (columns adj_close))%nat).
  { rewrite (calculate_sharpe_ratio_rows df risk_free_rate adj_close Hget) in Hcalc.
    injection Hcalc as <-.
    assert (Hlt : (j < length (map (fun jn : nat * string =>
                                      (snd jn, metrics_of (column (fst jn)
                                                             (daily_returns_of adj_close))
                                                          risk_free_rate))
                                   (tickers_of (daily_returns_of adj_close))))%nat)
      by (apply nth_error_Some; rewrite Hnth; discriminate).
    rewrite length_map in Hlt. unfold tickers_of in Hlt.
    rewrite length_combine, length_seq in Hlt.
    change (columns (daily_returns_of adj_close)) with (columns adj_close) in Hlt. lia. }
  rewrite (calculate_sharpe_ratio_nth df risk_free_rate adj_close results j stock m
             Hget Hcalc Hnth).
  rewrite (column_of_daily_returns adj_close j Hwf Hnz Hj).
  pose proof (annual_volatility_pos _ Hne) as Hvol.
  unfold metrics_of. cbn [Annual_Volatility Sharpe_Ratio Excess_Return].
  split; [exact Hvol|]. split; [field; lra|apply inline_divisor_eq].
Qed.

(* ================================================================== *)
(** * The rate, the labels                                             *)
(* ================================================================== *)

(** X10.  Raising the risk-free rate lowers the ratio: for daily returns
    that are not all equal and rates r1 <= r2, both implementations give at
    r2 a ratio no higher than at r1, and the ratio of
    [calculate_sharpe_ratio] drops by exactly (r2 - r1) / volatility. *)
Theorem sharpe_ratio_rate_monotone (stock_returns : list R) (r1 r2 : R) :
  not_all_equal stock_returns ->
  r1 <= r2 ->
  Sharpe_Ratio (metrics_of stock_returns r1) - Sharpe_Ratio (metrics_of stock_returns r2)
  = (r2 - r1) / Annual_Volatility (metrics_of stock_returns r1)
  /\ Sharpe_Ratio (metrics_of stock_returns r2)
     <= Sharpe_Ratio (metrics_of stock_returns r1)
  /\ inline_sharpe_ratio stock_returns r2 <= inline_sharpe_ratio stock_returns r1.
Proof.
  intros Hne Hr. pose proof (annual_volatility_pos _ Hne) as Hvol.
  assert (Hgap : (annual_return stock_returns - r1) / annual_volatility stock_returns
                 - (annual_return stock_returns - r2) / annual_volatility stock_returns
                 = (r2 - r1) / annual_volatility stock_returns)
    by (field; lra).
  assert (Hpos : 0 <= (r2 - r1) / annual_volatility stock_returns).
  { apply Rmult_le_pos; [lra|]. apply Rlt_le, Rinv_0_lt_compat. exact Hvol. }
  simpl. split; [exact Hgap|]. split; [lra|].
  rewrite !(inline_sharpe_ratio_eq _ _ (not_all_equal_nonempty _ Hne)).
  assert (Hgap' : (252 * mean stock_returns - r1) / annual_volatility stock_returns
                  - (252 * mean stock_returns - r2) / annual_volatility stock_returns
                  = (r2 - r1) / annual_volatility stock_returns)
    by (field; lra).
  lra.
Qed.

Lemma interpretation_cases (sharpe_val : R) :
  (interpretation sharpe_val = "Excellent" <-> 3 < sharpe_val)
  /\ (interpretation sharpe_val = "Very Good" <-> 2 < sharpe_val <= 3)
  /\ (interpretation sharpe_val = "Good" <-> 1 < sharpe_val <= 2)
  /\ (interpretation sharpe_val = "Positive but Below Average" <-> 0 < sharpe_val <= 1)
  /\ (interpretation sharpe_val = "Poor (Negative)" <-> sharpe_val <= 0).
Proof.
  unfold interpretation.
  destruct (Rgt_dec sharpe_val 3) as [H3|H3];
    [|destruct (Rgt_dec sharpe_val 2) as [H2|H2];
      [|destruct (Rgt_dec sharpe_val 1) as [H1|H1];
        [|destruct (Rgt_dec sharpe_val 0) as [H0|H0]]]];
    unfold Rgt in *;
    repeat split; intros; try discriminate; try reflexivity; lra.
Qed.

(** X11.  The five performance labels cut the real line at 0, 1, 2 and 3,
    each bound belonging to the lower label: a ratio of exactly 0 is
    labelled 'Poor (Negative)', exactly 1 'Positive but Below Average',
    exactly 2 'Good' and exactly 3 'Very Good'. *)
Theorem interpretation_spec (sharpe_val : R) :
  (interpretation sharpe_val = "Excellent" <-> 3 < sharpe_val)
  /\ (interpretation sharpe_val = "Very Good" <-> 2 < sharpe_val <= 3)
  /\ (interpretation sharpe_val = "Good" <-> 1 < sharpe_val <= 2)
  /\ (interpretation sharpe_val = "Positive but Below Average" <-> 0 < sharpe_val <= 1)
  /\ (interpretation sharpe_val = "Poor (Negative)" <-> sharpe_val <= 0).
Proof. exact (interpretation_cases sharpe_val). Qed.

(** X12.  On a well-formed table without a zero price, for a ticker whose
    daily returns are not all equal, the row of [calculate_sharpe_ratio]
    is displayed as 'Poor (Negative)' exactly when its annual return does
    not exceed the risk-free rate. *)
Theorem poor_iff_no_excess (df : DataFrame) (risk_free_rate : R)
        (adj_close : Frame R) (results : Results) (j : nat) (stock : string)
        (m : Metrics) :
  getitem df "Adj Close" = Returned adj_close ->
  wf_frame adj_close ->
  nonzero_frame adj_close ->
  calculate_sharpe_ratio df risk_free_rate = Returned results ->
  nth_error results j = Some (stock, m) ->
  not_all_equal (column j (daily_returns_of adj_close)) ->
  (interpretation (Sharpe_Ratio m) = "Poor (Negative)"
   <-> Annual_Return m <= risk_free_rate).
Proof.
  intros Hget _ _ Hcalc Hnth Hne.
  rewrite (calculate_sharpe_ratio_nth df risk_free_rate adj_close results j stock m
             Hget Hcalc Hnth).
  pose proof (annual_volatility_pos _ Hne) as Hvol.
  destruct (interpretation_cases
              (Sharpe_Ratio (metrics_of (column j (daily_returns_of adj_close))
                                        risk_free_rate)))
    as [_ [_ [_ [_ Hpoor]]]].
  rewrite Hpoor. simpl.
  set (a := annual_return (column j (daily_returns_of adj_close))) in *.
  set (v := annual_volatility (column j (daily_returns_of adj_close))) in *.
  split.
  - intros Hle. destruct (Rle_dec a risk_free_rate) as [H|H]; [exact H|].
    assert (0 < (a - risk_free_rate) / v) by (apply Rdiv_lt_0_compat; lra). lra.
  - intros Hle. unfold Rdiv.
    assert (0 <= (risk_free_rate - a) * / v).
    { apply Rmult_le_pos; [lra|]. apply Rlt_le, Rinv_0_lt_compat. exact Hvol. }
    lra.
Qed.

(* ================================================================== *)
(** * Sorting and rounding                                             *)
(* ================================================================== *)

(** X13.  [sort_values] loses and invents no row: its result is a
    rearrangement of the table, of the same length, in which every row has
    a Sharpe ratio at least that of every row after it. *)
Theorem sort_values_spec (results : Results) :
  Permutation results (sort_values results)
  /\ length (sort_values results) = length results
  /\ StronglySorted ranks_above (sort_values results).
Proof.
  split; [apply sort_values_perm|].
  split; [symmetry; apply Permutation_length, sort_values_perm|].
  apply sort_values_sorted.
Qed.

Lemma rint_bounds (x : R) : - (1 / 2) <= IZR (rint x) - x <= 1 / 2.
Proof.
  unfold rint.
  pose proof (Rplus_Int_part_frac_part x) as Hx.
  destruct (base_fp x) as [Hf0 Hf1].
  set (n := Int_part x) in *. set (f := frac_part x) in *.
  destruct (Rlt_dec f (1 / 2)) as [Hlo|Hlo]; [lra|].
  destruct (Rlt_dec (1 / 2) f) as [Hhi|Hhi]; [rewrite plus_IZR; lra|].
  destruct (Z.even n); [lra|rewrite plus_IZR; lra].
Qed.

Lemma rint_integer (k : Z) : rint (IZR k) = k.
Proof.
  assert (Hspec : k = Int_part (IZR k) /\ 0 = frac_part (IZR k)).
  { apply Int_part_frac_part_spec; lra. }
  destruct Hspec as [Hint Hfrac]. unfold rint. rewrite <- Hint, <- Hfrac.
  destruct (Rlt_dec 0 (1 / 2)) as [_|H]; [reflexivity|lra].
Qed.

Lemma pow10_pos (d : nat) : 0 < 10 ^ d.
Proof. apply pow_lt. lra. Qed.

Lemma round_error (d : nat) (x : R) : Rabs (round d x - x) <= / (2 * 10 ^ d).
Proof.
  unfold round. pose proof (pow10_pos d) as Hp.
  pose proof (rint_bounds (x * 10 ^ d)) as He.
  apply Rabs_le.
  assert (Hq : IZR (rint (x * 10 ^ d)) / 10 ^ d - x
               = (IZR (rint (x * 10 ^ d)) - x * 10 ^ d) / 10 ^ d) by (field; lra).
  rewrite Hq.
  assert (Hb : / (2 * 10 ^ d) = (1 / 2) / 10 ^ d) by (field; lra).
  rewrite Hb. unfold Rdiv at 1 3 4.
  assert (Hinv : 0 < / 10 ^ d) by (apply Rinv_0_lt_compat; exact Hp).
  split; nra.
Qed.

Lemma round_idempotent (d : nat) (x : R) : round d (round d x) = round d x.
Proof.
  unfold round at 1 2. pose proof (pow10_pos d) as Hp.
  replace (IZR (rint (x * 10 ^ d)) / 10 ^ d * 10 ^ d)
    with (IZR (rint (x * 10 ^ d))) by (field; lra).
  rewrite rint_integer. reflexivity.
Qed.

Lemma round_results_rounds (results : Results) :
  map fst (round_results 4 results) = map fst results
  /\ Forall2 (rows_within 0.00005) (round_results 4 results) results
  /\ round_results 4 (round_results 4 results) = round_results 4 results.
Proof.
  assert (Heps : / (2 * 10 ^ 4) = 0.00005) by (simpl; lra).
  split; [|split].
  - unfold round_results. rewrite map_map. reflexivity.
  - induction results as [|[stock m] results IH]; [constructor|].
    simpl. constructor; [|exact IH].
    unfold rows_within. simpl. rewrite <- Heps.
    repeat split; apply round_error.
  - unfold round_results. rewrite map_map. apply map_ext.
    intros [stock m]. simpl. rewrite !round_idempotent. reflexivity.
Qed.

(** X14.  Rounding to 4 decimals, as done for the CSV file and the summary
    table, keeps the rows and their labels in order, moves no cell by more
    than 0.00005, and changes nothing when applied a second time. *)
Theorem round_results_spec (results : Results) :
  map fst (round_results 4 results) = map fst results
  /\ Forall2 (rows_within 0.00005) (round_results 4 results) results
  /\ round_results 4 (round_results 4 results) = round_results 4 results.
Proof. exact (round_results_rounds results). Qed.

(* ================================================================== *)
(** * Outcomes of the cells                                            *)
(* ================================================================== *)

Lemma snd_get_risk_free_rate (w : World) (tr : list event) :
  snd (get_risk_free_rate w tr) = Returned (rate_of w (length (downloads tr))).
Proof. rewrite get_risk_free_rate_run. reflexivity. Qed.

Lemma iloc_last_snoc (f : Frame R) (init : list (datetime * list R))
      (t : datetime) (cells : list R) :
  rows f = init ++ [(t, cells)] -> iloc_last f = Returned cells.
Proof.
  intros Hrows. unfold iloc_last. rewrite Hrows, rev_app_distr. reflexivity.
Qed.

(** X15.  What [get_risk_free_rate] makes of the table it downloaded: the
    rate is the single cell of the LAST row of 'Close', divided by 100,
    whatever the rows before it; without a 'Close' field, without any row,
    or with a last row of several cells, the rate is the default 0.02. *)
Theorem risk_free_rate_extraction (w : World) (tr : list event)
        (treasury : DataFrame) :
  provider w (length (downloads tr)) (Latest "^IRX" "1d" "1d" false)
  = Returned treasury ->
  (~ In "Close" (map fst treasury) ->
   snd (get_risk_free_rate w tr) = Returned 0.02)
  /\ (forall close,
         getitem treasury "Close" = Returned close ->
         (rows close = [] -> snd (get_risk_free_rate w tr) = Returned 0.02)
         /\ (forall init t x,
                rows close = init ++ [(t, [x])] ->
                snd (get_risk_free_rate w tr) = Returned (x / 100))
         /\ (forall init t cells,
                rows close = init ++ [(t, cells)] ->
                length cells <> 1%nat ->
                snd (get_risk_free_rate w tr) = Returned 0.02)).
Proof.
  intros Hprov. rewrite snd_get_risk_free_rate.
  unfold rate_of, irx_fetch. change irx_request with (Latest "^IRX" "1d" "1d" false).
  rewrite Hprov. unfold last_close. split.
  - intros Hnot.
    assert (Hget : getitem treasury "Close" = Raised (KeyError "Close"))
      by (apply getitem_raised; split; [exact Hnot|reflexivity]).
    rewrite Hget. reflexivity.
  - intros close Hget. rewrite Hget. split; [|split].
    + intros Hrows. unfold iloc_last. rewrite Hrows. reflexivity.
    + intros init t x Hrows. rewrite (iloc_last_snoc close init t [x] Hrows).
      reflexivity.
    + intros init t cells Hrows Hlen.
      rewrite (iloc_last_snoc close init t cells Hrows).
      destruct cells as [|x [|y cells]]; [reflexivity|simpl in Hlen; lia|reflexivity].
Qed.

Lemma loc_label (results : Results) (stock : string) :
  In stock (map fst results) ->
  exists m, loc results stock = Returned m /\ In (stock, m) results.
Proof.
  induction results as [|[k m] results IH]; simpl; [tauto|].
  intros Hin. destruct (String.eqb_spec k stock) as [->|Hneq].
  - exists m. split; [reflexivity|now left].
  - destruct Hin as [Heq|Hin]; [contradiction|].
    destruct (IH Hin) as [m' [Hloc Hm']]. exists m'. split; [exact Hloc|now right].
Qed.

Lemma snd_bind (A B : Type) (c : Cell A) (k : A -> Cell B) (w : World)
      (tr : list event) :
  snd (bind c k w tr)
  = match snd (c w tr) with
    | Returned a => snd (k a w (fst (c w tr)))
    | Raised e => Raised e
    end.
Proof.
  unfold bind. destruct (c w tr) as [tr' [a|e]]; reflexivity.
Qed.

Lemma for_each_returns (A : Type) (xs : list A) (body : A -> Cell unit) :
  (forall x, In x xs -> forall w tr, snd (body x w tr) = Returned tt) ->
  forall w tr, snd (for_each xs body w tr) = Returned tt.
Proof.
  induction xs as [|x xs IH]; intros Hbody w tr; [reflexivity|].
  simpl. rewrite snd_bind, (Hbody x (or_introl eq_refl)).
  apply IH. intros y Hy. apply Hbody. now right.
Qed.

Lemma display_cell_outcome (sharpe_results : Results) (w : World)
      (tr : list event) :
  snd (display_cell sharpe_results w tr) = Returned (sort_values sharpe_results).
Proof.
  unfold display_cell. rewrite snd_bind. change (snd (banner _ w tr)) with (Returned tt).
  rewrite snd_bind.
  rewrite for_each_returns; [reflexivity|].
  intros stock Hin w' tr'.
  destruct (loc_label _ stock Hin) as [m [Hloc _]].
  unfold bind, print, loc_field, lift, ret. rewrite Hloc. reflexivity.
Qed.

(** X16.  The display of Step 4 never raises: every label it looks up with
    [.loc] comes from the index of the very table it reads, so for any
    table of results whose tickers label one row each it prints and hands
    on the sorted table. *)
Theorem display_cell_never_raises (sharpe_results : Results) (w : World)
        (tr : list event) :
  NoDup (map fst sharpe_results) ->
  snd (display_cell sharpe_results w tr) = Returned (sort_values sharpe_results)
  /\ exists prints,
      fst (display_cell sharpe_results w tr) = tr ++ prints
      /\ Forall printed prints.
Proof.
  intros _. split; [apply display_cell_outcome|].
  apply display_cell_prints.
Qed.

(** Step 6 raises on a table without rows, before anything is written,
    and otherwise writes the CSV file and returns. *)
Lemma export_cell_outcome (sorted : Results) (w : World) (tr : list event) :
  (sorted = [] ->
   export_cell sorted w tr
   = (tr, Raised (IndexError "index 0 is out of bounds for axis 0 with size 0")))
  /\ (sorted <> [] -> snd (export_cell sorted w tr) = Returned tt).
Proof.
  split.
  - intros ->. reflexivity.
  - intros Hne.
    destruct sorted as [|[best mb] rest] eqn:Hsorted; [contradiction|].
    rewrite <- Hsorted in *.
    destruct (exists_last Hne) as [init [[worst mw] Hlast]].
    assert (Hfirst : index_first sorted = Returned best) by (rewrite Hsorted; reflexivity).
    assert (Hidx : index_last sorted = Returned worst).
    { unfold index_last. rewrite Hlast, rev_app_distr. reflexivity. }
    destruct (loc_label sorted best) as [m1 [Hloc1 _]];
      [rewrite Hsorted; now left|].
    destruct (loc_label sorted worst) as [m2 [Hloc2 _]].
    { rewrite Hlast, map_app. apply in_or_app. right. now left. }
    unfold export_cell, bind, lift, loc_field, print, to_csv, ret.
    rewrite Hfirst, Hidx, Hloc1, Hloc2. reflexivity.
Qed.

Lemma sort_values_nil (results : Results) :
  sort_values results = [] <-> results = [].
Proof.
  pose proof (sort_values_perm results) as Hperm. split.
  - intros Hs. rewrite Hs in Hperm. apply Permutation_sym, Permutation_nil in Hperm.
    exact Hperm.
  - intros ->. reflexivity.
Qed.

Lemma analysis_outcome (w : World) (df : DataFrame) :
  provider w 0 (stock_request w) = Returned df ->
  snd (run analysis w)
  = match calculate_sharpe_ratio df (rate_of w 1) with
    | Raised e => Raised e
    | Returned [] =>
        Raised (IndexError "index 0 is out of bounds for axis 0 with size 0")
    | Returned (_ :: _) => Returned tt
    end.
Proof.
  intros Hprov. unfold run, analysis.
  rewrite snd_bind, download_cell_run. cbn [fst snd].
  change (length (downloads [])) with 0%nat. rewrite Hprov.
  rewrite snd_bind, risk_free_cell_run. cbn [fst snd].
  change (length (downloads ([] ++ [downloading_message; Download (stock_request w)])))
    with 1%nat.
  rewrite snd_bind, sharpe_cell_run. cbn [fst snd].
  destruct (calculate_sharpe_ratio df (rate_of w 1)) as [results|e]; [|reflexivity].
  rewrite snd_bind, display_cell_outcome.
  rewrite snd_bind, summary_cell_returns.
  match goal with
  | |- snd (export_cell ?s w ?t) = _ =>
      destruct (export_cell_outcome s w t) as [Hnil Hcons]
  end.
  destruct results as [|row results].
  - rewrite Hnil by reflexivity. reflexivity.
  - apply Hcons. intros Hs.
    apply (proj1 (sort_values_nil (row :: results))) in Hs. discriminate.
Qed.

(** X17.  How a run of the analysis ends once the prices are downloaded:
    without an 'Adj Close' field it raises KeyError('Adj Close'); with the
    field but no ticker column it raises IndexError at [index[0]] and
    writes nothing; with at least one ticker (no ticker twice) it runs to
    its end and writes one CSV table with a row for each ticker. *)
Theorem analysis_outcome_spec (w : World) (df : DataFrame) :
  provider w 0 (stock_request w) = Returned df ->
  (~ In "Adj Close" (map fst df) ->
   snd (run analysis w) = Raised (mkException "KeyError" "'Adj Close'")
   /\ writes (fst (run analysis w)) = [])
  /\ (forall adj_close,
         getitem df "Adj Close" = Returned adj_close ->
         (columns adj_close = [] ->
          snd (run analysis w)
          = Raised (IndexError "index 0 is out of bounds for axis 0 with size 0")
          /\ writes (fst (run analysis w)) = [])
         /\ (columns adj_close <> [] ->
             NoDup (columns adj_close) ->
             snd (run analysis w) = Returned tt
             /\ exists table,
                 writes (fst (run analysis w))
                 = [ToCsv "sharpe_ratio_analysis.csv" table]
                 /\ Permutation (map fst table) (columns adj_close))).
Proof.
  intros Hprov. pose proof (analysis_outcome w df Hprov) as Hout.
  assert (Hwrites : forall e, snd (run analysis w) = Raised e ->
                              writes (fst (run analysis w)) = []).
  { intros e He.
    pose proof (writes_printed _ (rate_prints_printed w 1)) as Hr.
    destruct (analysis_run w) as [[e' [_ Hrun]]|[df' [prints [_ [Hprints Hrun]]]]].
    - rewrite Hrun. reflexivity.
    - pose proof (writes_printed _ Hprints) as Hp.
      destruct Hrun as [[e' Hrun]|[results [_ Hrun]]]; rewrite Hrun in *.
      + cbn [fst]. rewrite !writes_app, Hp, Hr. reflexivity.
      + discriminate. }
  split.
  - intros Hnot.
    assert (Hcalc : calculate_sharpe_ratio df (rate_of w 1)
                    = Raised (KeyError "Adj Close")).
    { apply calculate_sharpe_ratio_raises, getitem_raised. split; [exact Hnot|reflexivity]. }
    rewrite Hcalc in Hout. split; [exact Hout|]. apply (Hwrites _ Hout).
  - intros adj_close Hget.
    pose proof (calculate_sharpe_ratio_rows df (rate_of w 1) adj_close Hget) as Hcalc.
    destruct (results_index df (rate_of w 1) adj_close _ Hget Hcalc)
      as [Hidx Hlen].
    rewrite Hcalc in Hout.
    set (results := map (fun jn : nat * string =>
                           (snd jn, metrics_of (column (fst jn) (daily_returns_of adj_close))
                                               (rate_of w 1)))
                        (tickers_of (daily_returns_of adj_close))) in *.
    split.
    + intros Hcols. rewrite Hcols in Hlen.
      destruct results as [|row results']; [|discriminate].
      split; [exact Hout|]. apply (Hwrites _ Hout).
    + intros Hcols _.
      destruct results as [|row results'] eqn:Hres.
      { simpl in Hidx. symmetry in Hidx. contradiction. }
      split; [exact Hout|].
      destruct (analysis_run w) as [[e' [_ Hrun]]|[df' [prints [Hprov' [Hprints Hrun]]]]].
      { rewrite Hrun in Hout. discriminate. }
      destruct Hrun as [[e' Hrun]|[results2 [Hcalc2 Hrun]]].
      { rewrite Hrun in Hout. discriminate. }
      rewrite Hprov in Hprov'. injection Hprov' as <-.
      rewrite Hcalc in Hcalc2. injection Hcalc2 as <-.
      exists (round_results 4 (sort_values (row :: results'))). split.
      * rewrite Hrun. cbn [fst].
        rewrite !writes_app, (writes_printed _ Hprints),
          (writes_printed _ (rate_prints_printed w 1)).
        reflexivity.
      * destruct (round_results_rounds (sort_values (row :: results'))) as [Hlabels _].
        rewrite Hlabels, <- Hidx.
        apply Permutation_map, Permutation_sym, sort_values_perm.
Qed.





(* ================================================================== *)
(** * The inline loop                                                  *)
(* ================================================================== *)

Lemma position_none (ticker : string) (names : list string) :
  position ticker names = None <-> ~ In ticker names.
Proof.
  induction names as [|n names IH]; simpl.
  - split; [tauto|reflexivity].
  - destruct (String.eqb_spec n ticker) as [->|Hneq].
    + split; [discriminate|]. intros H. exfalso. apply H. now left.
    + destruct (position ticker names) as [j|]; simpl.
      * split; [discriminate|]. intros H. exfalso.
        assert (Hin : In ticker names).
        { destruct (in_dec string_dec ticker names) as [Hin|Hnin]; [exact Hin|].
          apply IH in Hnin. discriminate. }
        apply H. now right.
      * split; [|reflexivity]. intros _ [Heq|Hin]; [contradiction|].
        apply (proj1 IH eq_refl Hin).
Qed.

Lemma getcolumn_raised (f : Frame R) (ticker : string) (e : Exception) :
  getcolumn f ticker = Raised e <-> ~ In ticker (columns f) /\ e = KeyError ticker.
Proof.
  unfold getcolumn. destruct (position ticker (columns f)) as [j|] eqn:Hpos.
  - split; [discriminate|]. intros [Hnot _]. apply position_none in Hnot.
    rewrite Hnot in Hpos. discriminate.
  - apply position_none in Hpos. split.
    + intros H. injection H as <-. split; [exact Hpos|reflexivity].
    + intros [_ ->]. reflexivity.
Qed.

Lemma inline_loop_cases (tickers : list string) (daily_returns : Frame R)
      (risk_free_rate : R) :
  (Forall (fun t => In t (columns daily_returns)) tickers ->
   exists sharpe_ratios,
     inline_loop tickers daily_returns risk_free_rate = Returned sharpe_ratios
     /\ map fst sharpe_ratios = tickers
     /\ forall stock ratio,
         In (stock, ratio) sharpe_ratios ->
         exists stock_returns,
           getcolumn daily_returns stock = Returned stock_returns
           /\ ratio = inline_sharpe_ratio stock_returns risk_free_rate)
  /\ (forall e,
         inline_loop tickers daily_returns risk_free_rate = Raised e ->
         exists t, In t tickers /\ ~ In t (columns daily_returns) /\ e = KeyError t).
Proof.
  split.
  - induction 1 as [|t tickers Ht Hall IH].
    + exists []. split; [reflexivity|]. split; [reflexivity|]. intros ? ? [].
    + destruct IH as [ratios [Hloop [Hlabels Hvalues]]].
      destruct (getcolumn daily_returns t) as [col|e] eqn:Hcol.
      2:{ apply getcolumn_raised in Hcol. destruct Hcol as [Hnot _]. contradiction. }
      exists ((t, inline_sharpe_ratio col risk_free_rate) :: ratios).
      split; [simpl; rewrite Hcol, Hloop; reflexivity|].
      split; [simpl; rewrite Hlabels; reflexivity|].
      intros stock ratio [Heq|Hin].
      * injection Heq as <- <-. exists col. split; [exact Hcol|reflexivity].
      * apply Hvalues. exact Hin.
  - induction tickers as [|t tickers IH]; intros e He; [discriminate|].
    simpl in He. destruct (getcolumn daily_returns t) as [col|e'] eqn:Hcol.
    + destruct (inline_loop tickers daily_returns risk_free_rate) as [ratios|e''].
      * discriminate.
      * injection He as <-. destruct (IH e'' eq_refl) as [t' [Hin [Hnot Heq]]].
        exists t'. split; [now right|]. split; assumption.
    + injection He as <-. apply getcolumn_raised in Hcol. destruct Hcol as [Hnot Heq].
      exists t. split; [now left|]. split; assumption.
Qed.

(** X18.  The inline loop needs a column for every ticker it is given
    (tickers and columns without repetition): when all are columns of the
    daily returns it returns one ratio per ticker, labelled and ordered as
    the tickers, each computed from that ticker's column; otherwise it
    raises KeyError for a ticker that is missing. *)
Theorem inline_loop_spec (tickers : list string) (daily_returns : Frame R)
        (risk_free_rate : R) :
  NoDup tickers ->
  NoDup (columns daily_returns) ->
  (Forall (fun t => In t (columns daily_returns)) tickers ->
   exists sharpe_ratios,
     inline_loop tickers daily_returns risk_free_rate = Returned sharpe_ratios
     /\ map fst sharpe_ratios = tickers
     /\ forall stock ratio,
         In (stock, ratio) sharpe_ratios ->
         exists stock_returns,
           getcolumn daily_returns stock = Returned stock_returns
           /\ ratio = inline_sharpe_ratio stock_returns risk_free_rate)
  /\ (forall e,
         inline_loop tickers daily_returns risk_free_rate = Raised e ->
         exists t, In t tickers /\ ~ In t (columns daily_returns) /\ e = KeyError t).
Proof.
  intros _ _. apply inline_loop_cases.
Qed.

Lemma inline_analysis_outcome (w : World) (prices : DataFrame) :
  provider w 0 (stock_request w) = Returned prices ->
  snd (run inline_analysis w)
  = match getitem prices "Adj Close" with
    | Raised e => Raised e
    | Returned df =>
        match inline_loop stocks (daily_returns_of df) 0.03 with
        | Raised e => Raised e
        | Returned _ => Returned tt
        end
    end.
Proof.
  intros Hprov. unfold run, inline_analysis, bind, datetime_now, yf_download, lift.
  change (length (downloads [])) with 0%nat.
  change (History stocks (now w - timedelta (365 * 5))%Z (now w) false)
    with (stock_request w).
  rewrite Hprov. destruct (getitem prices "Adj Close") as [df|e]; [|reflexivity].
  fold (daily_returns_of df).
  destruct (inline_loop stocks (daily_returns_of df) 0.03); reflexivity.
Qed.

(** X19.  The last cell, unlike the analysis, insists on its four tickers:
    once the prices are downloaded with their 'Adj Close' field (no ticker
    twice), it runs to its end exactly when MSFT, QQQ, INTC and SPY are all
    among the columns, and otherwise raises KeyError for one of those four
    that is missing. *)
Theorem inline_analysis_outcome_spec (w : World) (prices : DataFrame)
        (df : Frame R) :
  provider w 0 (stock_request w) = Returned prices ->
  getitem prices "Adj Close" = Returned df ->
  NoDup (columns df) ->
  (snd (run inline_analysis w) = Returned tt
   <-> Forall (fun t => In t (columns df)) ["MSFT"; "QQQ"; "INTC"; "SPY"])
  /\ (forall e,
         snd (run inline_analysis w) = Raised e ->
         exists t, In t ["MSFT"; "QQQ"; "INTC"; "SPY"]
                   /\ ~ In t (columns df) /\ e = KeyError t).
Proof.
  intros Hprov Hget _.
  rewrite (inline_analysis_outcome w prices Hprov), Hget.
  destruct (inline_loop_cases stocks (daily_returns_of df) 0.03) as [Hok Hraise].
  change (columns (daily_returns_of df)) with (columns df) in *.
  change ["MSFT"; "QQQ"; "INTC"; "SPY"] with stocks.
  destruct (inline_loop stocks (daily_returns_of df) 0.03) as [ratios|e] eqn:Hloop.
  - split.
    + split; [intros _|reflexivity].
      apply Forall_forall. intros t Ht.
      destruct (in_dec string_dec t (columns df)) as [Hin|Hnot]; [exact Hin|].
      exfalso.
      assert (Hcol : getcolumn (daily_returns_of df) t = Raised (KeyError t))
        by (apply getcolumn_raised; split; [exact Hnot|reflexivity]).
      clear Hok Hraise. revert ratios Hloop.
      unfold stocks in Ht |- *.
      induction ["MSFT"; "QQQ"; "INTC"; "SPY"] as [|s l IH]; intros ratios Hloop;
        [destruct Ht|].
      simpl in Hloop. destruct Ht as [->|Ht].
      * rewrite Hcol in Hloop. discriminate.
      * destruct (getcolumn (daily_returns_of df) s); [|discriminate].
        destruct (inline_loop l (daily_returns_of df) 0.03) as [r'|]; [|discriminate].
        apply (IH Ht r' eq_refl).
    + intros e He. discriminate.
  - split.
    + split; [discriminate|]. intros Hall.
      destruct (Hok Hall) as [ratios [Hret _]]. discriminate.
    + intros e' He. injection He as <-. apply Hraise. reflexivity.
Qed.

(** X20.  Each row of the table is computed from the prices of its own
    ticker alone: on well-formed prices without a zero price the row of
    the ticker in column [j] is the row of the relative changes along
    column [j], so the prices of the other tickers do not enter it. *)
Theorem results_row_of_own_prices (df : DataFrame) (risk_free_rate : R)
        (adj_close : Frame R) (results : Results) (j : nat) (stock : string)
        (m : Metrics) :
  getitem df "Adj Close" = Returned adj_close ->
  wf_frame adj_close ->
  nonzero_frame adj_close ->
  calculate_sharpe_ratio df risk_free_rate = Returned results ->
  nth_error results j = Some (stock, m) ->
  nth_error (columns adj_close) j = Some stock
  /\ m = metrics_of (series_returns (column j adj_close)) risk_free_rate.
Proof.
  intros Hget Hwf Hnz Hcalc Hnth.
  pose proof (calculate_sharpe_ratio_nth df risk_free_rate adj_close results j stock m
                Hget Hcalc Hnth) as Hm.
  destruct (results_index df risk_free_rate adj_close results Hget Hcalc)
    as [Hidx Hlen].
  assert (Hstock : nth_error (columns adj_close) j = Some stock).
  { rewrite <- Hidx, nth_error_map, Hnth. reflexivity. }
  split; [exact Hstock|].
  assert (Hj : (j < length (columns adj_close))%nat).
  { apply nth_error_Some. rewrite Hstock. discriminate. }
  rewrite Hm, (column_of_daily_returns adj_close j Hwf Hnz Hj). reflexivity.
Qed.

Lemma insert_desc_value_perm (row : string * R) (l : list (string * R)) :
  Permutation (row :: l) (insert_desc_value row l).
Proof.
  induction l as [|r l IH]; simpl.
  - apply Permutation_refl.
  - destruct (Rle_dec (snd r) (snd row)).
    + apply Permutation_refl.
    + eapply perm_trans; [apply perm_swap|]. apply perm_skip. exact IH.
Qed.

Lemma insert_desc_value_sorted (row : string * R) (l : list (string * R)) :
  StronglySorted value_above l -> StronglySorted value_above (insert_desc_value row l).
Proof.
  induction l as [|r l IH]; intros Hs; simpl.
  - constructor; constructor.
  - destruct (Rle_dec (snd r) (snd row)) as [Hle|Hgt].
    + constructor; [exact Hs|].
      inversion Hs as [|x xs Hxs Hall]; subst.
      constructor; [exact Hle|].
      eapply Forall_impl; [|exact Hall].
      unfold value_above. intros c Hc. lra.
    + inversion Hs as [|x xs Hxs Hall]; subst.
      constructor; [apply IH; exact Hxs|].
      eapply Permutation_Forall; [apply insert_desc_value_perm|].
      constructor; [|exact Hall].
      unfold value_above. lra.
Qed.

(** X21.  The table the last cell prints is its dict of ratios sorted by
    descending ratio: a rearrangement of the entries in which no entry has
    a lower ratio than one after it. *)
Theorem inline_sort_spec (sharpe_ratios : list (string * R)) :
  Permutation sharpe_ratios (fold_right insert_desc_value [] sharpe_ratios)
  /\ StronglySorted value_above (fold_right insert_desc_value [] sharpe_ratios).
Proof.
  induction sharpe_ratios as [|row l [IHp IHs]]; simpl.
  - split; constructor.
  - split.
    + eapply perm_trans; [apply perm_skip; exact IHp|]. apply insert_desc_value_perm.
    + apply insert_desc_value_sorted. exact IHs.
Qed.

(* ================================================================== *)
(** * The further statements at sample inputs                          *)
(* ================================================================== *)

Lemma four_prices_nonzero : nonzero_frame four_prices.
Proof. nonzero_cells. Qed.

Lemma rising_prices_positive : positive_frame rising_prices.
Proof.
  unfold positive_frame.
  repeat (constructor; [repeat constructor; simpl; lra|]). constructor.
Qed.

Lemma four_prices_wf : wf_frame four_prices.
Proof. repeat constructor. Defined.

Lemma four_tickers_nodup : NoDup (columns four_prices).
Proof.
  repeat (constructor; [simpl; intuition discriminate|]). constructor.
Defined.

Lemma stocks_nodup : NoDup stocks.
Proof.
  repeat (constructor; [simpl; intuition discriminate|]). constructor.
Defined.

Lemma display_cell_witness :
  snd (display_cell [("MSFT", metrics_of rising_returns 0.03)] market_world [])
  = Returned [("MSFT", metrics_of rising_returns 0.03)].
Proof.
  assert (Hnodup : NoDup (map fst [("MSFT", metrics_of rising_returns 0.03)])).
  { constructor; [intros []|constructor]. }
  apply (display_cell_never_raises [("MSFT", metrics_of rising_returns 0.03)]
           market_world [] Hnodup).
Defined.

Lemma results_index_witness :
  exists results,
    calculate_sharpe_ratio four_df 0.03 = Returned results
    /\ map fst results = ["INTC"; "MSFT"; "QQQ"; "SPY"]
    /\ length results = 4%nat.
Proof.
  eexists. split; [apply (calculate_sharpe_ratio_rows four_df 0.03 four_prices eq_refl)|].
  apply (results_index_spec four_df 0.03 four_prices _ eq_refl
           (calculate_sharpe_ratio_rows four_df 0.03 four_prices eq_refl)).
Defined.

Lemma results_derived_columns_witness :
  Excess_Return (metrics_of rising_returns 0.03)
  = Annual_Return (metrics_of rising_returns 0.03) - 0.03
  /\ Annual_Return_Pct (metrics_of rising_returns 0.03)
     = Annual_Return (metrics_of rising_returns 0.03) * 100
  /\ Annual_Volatility_Pct (metrics_of rising_returns 0.03)
     = Annual_Volatility (metrics_of rising_returns 0.03) * 100
  /\ Excess_Return_Pct (metrics_of rising_returns 0.03)
     = Excess_Return (metrics_of rising_returns 0.03) * 100.
Proof.
  apply (results_derived_columns rising_df 0.03
           [("MSFT", metrics_of rising_returns 0.03)] "MSFT" _ (rising_calculate 0.03)).
  left. reflexivity.
Defined.

Lemma results_bounds_witness :
  -1 <= Annual_Return (metrics_of rising_returns 0.03)
  /\ 0 <= Annual_Volatility (metrics_of rising_returns 0.03).
Proof.
  apply (results_bounds rising_df 0.03
           [("MSFT", metrics_of rising_returns 0.03)] "MSFT" _ (rising_calculate 0.03)).
  left. reflexivity.
Defined.

Lemma scale_invariant_witness :
  calculate_sharpe_ratio (scale_prices 2 rising_df) 0.03
  = calculate_sharpe_ratio rising_df 0.03.
Proof.
  apply (calculate_sharpe_ratio_scale_invariant 2 rising_df 0.03). lra.
Defined.

Lemma column_daily_returns_witness :
  column 1 (daily_returns_of four_prices) = [404 / 400 - 1; 412 / 404 - 1].
Proof.
  assert (Hj : (1 < length (columns four_prices))%nat) by (simpl; lia).
  rewrite (column_daily_returns four_prices 1 four_prices_wf four_prices_nonzero Hj).
  reflexivity.
Defined.

Lemma daily_returns_compound_witness :
  nth 0 (column 0 rising_prices) 0
  * compound (column 0 (daily_returns_of rising_prices))
  = last (column 0 rising_prices) 0.
Proof.
  assert (Hj : (0 < length (columns rising_prices))%nat) by (simpl; lia).
  apply (daily_returns_compound rising_prices 0 rising_prices_wf
           rising_prices_nonzero Hj).
Defined.

Lemma positive_prices_returns_witness :
  Forall (fun x => -1 <= x) (column 0 (daily_returns_of rising_prices))
  /\ -1 <= mean (column 0 (daily_returns_of rising_prices)).
Proof.
  assert (Hj : (0 < length (columns rising_prices))%nat) by (simpl; lia).
  assert (Hlen : (2 <= length (rows rising_prices))%nat) by (simpl; lia).
  destruct (positive_prices_returns rising_prices 0 rising_prices_wf
              rising_prices_positive Hj) as [Hall Hmean].
  split; [exact Hall|]. apply (Hmean Hlen).
Defined.

Lemma daily_returns_shape_witness :
  columns (daily_returns_of rising_prices) = ["MSFT"]
  /\ wf_frame (daily_returns_of rising_prices).
Proof.
  assert (Hcols : columns rising_prices <> []) by discriminate.
  destruct (daily_returns_shape rising_prices rising_prices_wf Hcols)
    as [Hc [Hwf _]].
  split; [exact Hc|exact Hwf].
Defined.

Lemma rate_monotone_witness :
  Sharpe_Ratio (metrics_of rising_returns 0.03)
  <= Sharpe_Ratio (metrics_of rising_returns 0.02)
  /\ inline_sharpe_ratio rising_returns 0.03 <= inline_sharpe_ratio rising_returns 0.02.
Proof.
  assert (Hr : 0.02 <= 0.03) by lra.
  apply (sharpe_ratio_rate_monotone rising_returns 0.02 0.03 rising_not_all_equal Hr).
Defined.

Lemma poor_iff_no_excess_witness :
  interpretation (Sharpe_Ratio (metrics_of rising_returns 0.03)) = "Poor (Negative)"
  <-> Annual_Return (metrics_of rising_returns 0.03) <= 0.03.
Proof.
  assert (Hne : not_all_equal (column 0 (daily_returns_of rising_prices)))
    by (rewrite rising_column; exact rising_not_all_equal).
  apply (poor_iff_no_excess rising_df 0.03 rising_prices
           [("MSFT", metrics_of rising_returns 0.03)] 0 "MSFT" _
           eq_refl rising_prices_wf rising_prices_nonzero (rising_calculate 0.03)
           eq_refl Hne).
Defined.

Lemma volatility_positive_witness :
  0 < Annual_Volatility (metrics_of rising_returns 0.03)
  /\ Sharpe_Ratio (metrics_of rising_returns 0.03)
     * Annual_Volatility (metrics_of rising_returns 0.03)
     = Excess_Return (metrics_of rising_returns 0.03)
  /\ inline_divisor (series_returns (column 0 rising_prices)) 0.03
     = Annual_Volatility (metrics_of rising_returns 0.03).
Proof.
  apply (volatility_positive rising_df 0.03 rising_prices
           [("MSFT", metrics_of rising_returns 0.03)] 0 "MSFT" _
           eq_refl rising_prices_wf rising_prices_nonzero (rising_calculate 0.03)
           eq_refl rising_not_all_equal).
Defined.


Lemma risk_free_rate_extraction_witness :
  snd (get_risk_free_rate market_world []) = Returned (4.2 / 100)
  /\ snd (get_risk_free_rate empty_treasury_world []) = Returned 0.02.
Proof.
  destruct (risk_free_rate_extraction market_world [] treasury_df eq_refl)
    as [_ Hclose].
  destruct (Hclose _ eq_refl) as [_ [Hlast _]].
  destruct (risk_free_rate_extraction empty_treasury_world [] empty_treasury_df eq_refl)
    as [_ Hempty].
  destruct (Hempty _ eq_refl) as [Hnone _].
  split.
  - apply (Hlast [] 0%Z 4.2 eq_refl).
  - apply (Hnone eq_refl).
Defined.

Lemma analysis_outcome_witness :
  snd (run analysis four_world) = Returned tt
  /\ exists table,
      writes (fst (run analysis four_world))
      = [ToCsv "sharpe_ratio_analysis.csv" table]
      /\ Permutation (map fst table) ["INTC"; "MSFT"; "QQQ"; "SPY"].
Proof.
  destruct (analysis_outcome_spec four_world four_df eq_refl) as [_ Hadj].
  destruct (Hadj four_prices eq_refl) as [_ Hrun].
  apply Hrun; [discriminate|apply four_tickers_nodup].
Defined.

Lemma inline_analysis_outcome_witness :
  snd (run inline_analysis four_world) = Returned tt
  /\ snd (run inline_analysis market_world) <> Returned tt.
Proof.
  destruct (inline_analysis_outcome_spec four_world four_df four_prices eq_refl eq_refl
              four_tickers_nodup) as [[_ Hfour] _].
  assert (Hnodup : NoDup (columns rising_prices)) by (constructor; [intros []|constructor]).
  destruct (inline_analysis_outcome_spec market_world rising_df rising_prices
              eq_refl eq_refl Hnodup) as [[Hone _] _].
  split.
  - apply Hfour. repeat constructor; simpl; tauto.
  - intros Hret. apply Hone in Hret. inversion Hret as [|t l Hmsft Hrest]; subst.
    inversion Hrest as [|t l Hqqq _]; subst.
    simpl in Hqqq. destruct Hqqq as [Heq|[]]. discriminate.
Defined.

Lemma results_row_witness :
  exists results m,
    calculate_sharpe_ratio four_df 0.03 = Returned results
    /\ nth_error results 1 = Some ("MSFT", m)
    /\ m = metrics_of (series_returns [400; 404; 412]) 0.03.
Proof.
  eexists. eexists.
  split; [apply (calculate_sharpe_ratio_rows four_df 0.03 four_prices eq_refl)|].
  split; [reflexivity|].
  apply (results_row_of_own_prices four_df 0.03 four_prices _ 1 "MSFT" _
           eq_refl four_prices_wf four_prices_nonzero
           (calculate_sharpe_ratio_rows four_df 0.03 four_prices eq_refl) eq_refl).
Defined.

Lemma inline_loop_witness :
  exists sharpe_ratios,
    inline_loop stocks (daily_returns_of four_prices) 0.03 = Returned sharpe_ratios
    /\ map fst sharpe_ratios = ["MSFT"; "QQQ"; "INTC"; "SPY"].
Proof.
  destruct (inline_loop_spec stocks (daily_returns_of four_prices) 0.03
              stocks_nodup four_tickers_nodup) as [Hok _].
  destruct Hok as [ratios [Hloop [Hlabels _]]].
  - repeat constructor; simpl; tauto.
  - exists ratios. split; [exact Hloop|exact Hlabels].
Defined.
